(** * GenMap: the NSGA-II mapping optimizer and the mapping-width objective

    A shallow embedding of [NSGA2.py] and [MapWidthEval.py].

    Conventions of the embedding:
    - Python integers are [Z]; routing costs and fitness values, which the
      code only adds, compares and tests for equality, are [Z] as well;
      reference points and hypervolumes (results of the pygmo library) are [Q];
    - a Python exception is the [Raise] outcome of [result];
    - a method that mutates its object returns the object's new value;
    - what is printed, and which collaborator methods are called, is recorded
      in explicit logs so that statements about them can be made. *)

From Stdlib Require Import ZArith QArith Lia.
From stdpp Require Import base option list gmap strings pretty.

Local Open Scope Z_scope.

(** ** Exceptions *)

Inductive exn : Type :=
  | ValueError (msg : string)
  | TypeError (msg : string).

Inductive result (A : Type) : Type :=
  | Ok (a : A)
  | Raise (e : exn).
Arguments Ok {A} a.
Arguments Raise {A} e.

#[global] Instance result_ret : MRet result := fun _ a => Ok a.
#[global] Instance result_bind : MBind result := fun _ _ f r =>
  match r with
  | Ok a => f a
  | Raise e => Raise e
  end.

Definition is_Ok {A} (r : result A) : Prop := exists a, r = Ok a.

(** [range(n)] *)
Definition range (n : Z) : list Z := seqZ 0 n.

(** [max(l)]: raises on the empty list. *)
Definition py_max (l : list Z) : result Z :=
  match l with
  | [] => Raise (ValueError "max() arg is an empty sequence")
  | x :: l' => Ok (foldl Z.max x l')
  end.

(** ** Collaborators of the two source files *)

Definition Node := string.

(** The routed graph (a networkx [DiGraph]). *)
Record DiGraph : Type := {
  nodes : list Node;
  edges : list (Node * Node)
}.

(** Modelled from the spec: the resources of one processing element, as
    [PEArrayModel.get_PE_resources] returns them (PEArrayModel.py is not among
    the sources): a dict with the key "SE" (a dict from switch identifier to
    a set of nodes) and the key "ALU" (one node). *)
Record PEResources : Type := {
  rsc_SE : gmap Z (gset Node);
  rsc_ALU : Node
}.

(** Modelled from the spec: the hardware model [PEArrayModel]
    (PEArrayModel.py is not among the sources), with the methods that the two
    source files call. *)
Record PEArrayModel : Type := {
  getSize : Z * Z;
  isSE : Node -> bool;
  isALU : Node -> bool;
  get_PE_resources : Z * Z -> PEResources;
  getPregNumber : Z
}.

Definition Mapping := gmap Node (Z * Z).
Definition PregConfig := list bool.

(** Modelled from the spec: the candidate [Individual] (Individual.py is not
    among the sources): a routing graph, a mapping, a pipeline register
    assignment, a settable routing cost, a validity flag that only
    [validate] sets, a fitness vector and the saved evaluation results. *)
Record Individual : Type := {
  mapping : Mapping;
  preg : PregConfig;
  routed_graph : DiGraph;
  routing_cost : Z;
  valid : bool;
  fitness_values : list Z;
  evaluated_data : gmap string Z
}.

Definition isValid (ind : Individual) : bool := valid ind.

Definition validate (ind : Individual) : Individual :=
  {| mapping := mapping ind; preg := preg ind;
     routed_graph := routed_graph ind; routing_cost := routing_cost ind;
     valid := true;
     fitness_values := fitness_values ind;
     evaluated_data := evaluated_data ind |}.

Definition set_routing_cost (c : Z) (ind : Individual) : Individual :=
  {| mapping := mapping ind; preg := preg ind;
     routed_graph := routed_graph ind; routing_cost := c;
     valid := valid ind;
     fitness_values := fitness_values ind;
     evaluated_data := evaluated_data ind |}.

Definition set_routed_graph (g : DiGraph) (ind : Individual) : Individual :=
  {| mapping := mapping ind; preg := preg ind;
     routed_graph := g; routing_cost := routing_cost ind;
     valid := valid ind;
     fitness_values := fitness_values ind;
     evaluated_data := evaluated_data ind |}.

(** [ind.fitness.values = fit]. The fitness class of deap keeps the values
    as floating point numbers; here they stay the integers that the
    objectives returned, which is what the floats are for values between
    -2^53 and 2^53. *)
Definition set_fitness_values (fit : list Z) (ind : Individual) : Individual :=
  {| mapping := mapping ind; preg := preg ind;
     routed_graph := routed_graph ind; routing_cost := routing_cost ind;
     valid := valid ind;
     fitness_values := fit;
     evaluated_data := evaluated_data ind |}.

Definition saveEvaluatedData (key : string) (v : Z) (ind : Individual)
  : Individual :=
  {| mapping := mapping ind; preg := preg ind;
     routed_graph := routed_graph ind; routing_cost := routing_cost ind;
     valid := valid ind;
     fitness_values := fitness_values ind;
     evaluated_data := <[key := v]> (evaluated_data ind) |}.

(** The application and the simulation parameters: the sub-graphs that the
    routing stages receive. *)
Record Application : Type := {
  getCompSubGraph : DiGraph;
  getConstSubGraph : DiGraph;
  getInputSubGraph : DiGraph;
  getOutputSubGraph : DiGraph
}.

Definition SimParameters := gmap string Z.

(** ** MapWidthEval.py *)

Module MapWidthEval.

(** [[v for se_set in rsc["SE"].values() for v in se_set]] *)
Definition SE_nodes (rsc : PEResources) : list Node :=
  mjoin (elements <$> (map_to_list (rsc_SE rsc)).*2).

(** The test of the innermost [if]. *)
Definition in_PE (CGRA : PEArrayModel) (node : Node) (x y : Z) : bool :=
  let rsc := get_PE_resources CGRA (x, y) in
  bool_decide (node ∈ SE_nodes rsc) || bool_decide (node = rsc_ALU rsc).

(** [for y in range(height)]: the first hit appends [x] and breaks. *)
Fixpoint scan_y (CGRA : PEArrayModel) (node : Node) (x : Z) (ys : list Z)
    (x_coords : list Z) : list Z :=
  match ys with
  | [] => x_coords
  | y :: ys' =>
      if in_PE CGRA node x y then x_coords ++ [x]
      else scan_y CGRA node x ys' x_coords
  end.

(** [for x in range(width)] *)
Fixpoint scan_x (CGRA : PEArrayModel) (node : Node) (xs : list Z)
    (height : Z) (x_coords : list Z) : list Z :=
  match xs with
  | [] => x_coords
  | x :: xs' =>
      scan_x CGRA node xs' height (scan_y CGRA node x (range height) x_coords)
  end.

(** [for node in SEs + ALUs] *)
Fixpoint scan_nodes (CGRA : PEArrayModel) (ns : list Node)
    (width height : Z) (x_coords : list Z) : list Z :=
  match ns with
  | [] => x_coords
  | node :: ns' =>
      scan_nodes CGRA ns' width height
        (scan_x CGRA node (range width) height x_coords)
  end.

Definition x_coords_of (CGRA : PEArrayModel) (individual : Individual)
  : list Z :=
  let SEs := filter (fun v => isSE CGRA v = true)
               (nodes (routed_graph individual)) in
  let ALUs := filter (fun v => isALU CGRA v = true)
                (nodes (routed_graph individual)) in
  let '(width, height) := getSize CGRA in
  scan_nodes CGRA (SEs ++ ALUs) width height [].

Definition eval (CGRA : PEArrayModel) (app : Application)
    (sim_params : SimParameters) (individual : Individual)
  : result (Z * Individual) :=
  m ← py_max (x_coords_of CGRA individual);
  let map_width := m + 1 in
  mret (map_width, saveEvaluatedData "map_width" map_width individual).

Definition isMinimize : bool := true.

Definition name : string := "Mapping_Width".

End MapWidthEval.

(** ** Objective and router interfaces *)

Definition EvalArgs := gmap string Z.

(** An objective class (a subclass of [EvalBase]): its static methods.
    [eval] may save results in the candidate and may raise. *)
Record EvalBase : Type := {
  eval : PEArrayModel -> Application -> SimParameters -> Individual ->
         EvalArgs -> result (Z * Individual);
  isMinimize : bool;
  name : string
}.

(** [MapWidthEval] as an objective class: its [eval] takes no keyword
    argument. *)
Definition MapWidthEval_cls : EvalBase :=
  {| eval := fun CGRA app sim_params individual args =>
       if bool_decide (args = ∅)
       then MapWidthEval.eval CGRA app sim_params individual
       else Raise (TypeError "eval() got an unexpected keyword argument");
     isMinimize := MapWidthEval.isMinimize;
     name := MapWidthEval.name |}.

(** A router class (a subclass of [RouterBase]). A routing stage receives
    the model, a sub-graph of the application, the mapping and the routing
    graph; it returns its cost and rewrites the routing graph. *)
Record RouterBase : Type := {
  get_penalty_cost : Z;
  comp_routing :
    PEArrayModel -> DiGraph -> Mapping -> DiGraph -> Z * DiGraph;
  const_routing :
    PEArrayModel -> DiGraph -> Mapping -> DiGraph -> Z * DiGraph;
  input_routing :
    PEArrayModel -> DiGraph -> Mapping -> DiGraph -> Z * DiGraph;
  output_routing :
    PEArrayModel -> DiGraph -> Mapping -> DiGraph -> option PregConfig ->
    Z * DiGraph;
  clean_graph : DiGraph -> DiGraph
}.

(** ** The evaluation of one candidate as a stateful computation

    The state is the candidate under evaluation together with the log of the
    collaborator methods called so far. *)

Inductive Call : Type :=
  | Call_get_penalty_cost
  | Call_comp_routing
  | Call_const_routing
  | Call_input_routing
  | Call_output_routing (with_preg : bool)
  | Call_clean_graph (g : DiGraph)
  | Call_validate
  | Call_eval (objective : string).

Record Machine : Type := {
  cand : Individual;
  calls : list Call
}.

Definition Eff (A : Type) : Type := Machine -> result (A * Machine).

#[global] Instance Eff_ret : MRet Eff := fun _ a m => Ok (a, m).
#[global] Instance Eff_bind : MBind Eff := fun _ _ f c m =>
  match c m with
  | Ok (a, m') => f a m'
  | Raise e => Raise e
  end.

Definition logged (c : Call) (ind : Individual) (m : Machine) : Machine :=
  {| cand := ind; calls := calls m ++ [c] |}.

Definition get_isValid : Eff bool := fun m => Ok (isValid (cand m), m).

Definition put_routing_cost (c : Z) : Eff unit := fun m =>
  Ok (tt, {| cand := set_routing_cost c (cand m); calls := calls m |}).

Definition call_get_penalty_cost (router : RouterBase) : Eff Z := fun m =>
  Ok (get_penalty_cost router, logged Call_get_penalty_cost (cand m) m).

(** A routing stage applied to the candidate's mapping and routing graph:
    the graph it leaves is the candidate's routing graph afterwards. *)
Definition call_stage (c : Call)
    (stage : Mapping -> DiGraph -> Z * DiGraph) : Eff Z := fun m =>
  let '(cost, g) := stage (mapping (cand m)) (routed_graph (cand m)) in
  Ok (cost, logged c (set_routed_graph g (cand m)) m).

Definition call_clean_graph (router : RouterBase) : Eff unit := fun m =>
  let g := routed_graph (cand m) in
  Ok (tt, logged (Call_clean_graph g)
            (set_routed_graph (clean_graph router g) (cand m)) m).

Definition call_validate : Eff unit := fun m =>
  Ok (tt, logged Call_validate (validate (cand m)) m).

Definition call_eval (cls : EvalBase) (CGRA : PEArrayModel)
    (app : Application) (sim_params : SimParameters) (args : EvalArgs)
  : Eff Z := fun m =>
  match eval cls CGRA app sim_params (cand m) args with
  | Ok (v, ind) => Ok (v, logged (Call_eval (name cls)) ind m)
  | Raise e => Raise e
  end.

(** ** NSGA2.py *)

Module NSGA2.

(** [__doRouting] *)
Definition doRouting (CGRA : PEArrayModel) (app : Application)
    (router : RouterBase) : Eff unit :=
  v ← get_isValid;
  if (v : bool) then mret tt else
  penalty ← call_get_penalty_cost router;
  let cost := 0 in
  c ← call_stage Call_comp_routing
        (comp_routing router CGRA (getCompSubGraph app));
  let cost := cost + c in
  if bool_decide (cost > penalty) then put_routing_cost (cost + penalty) else
  c ← call_stage Call_const_routing
        (const_routing router CGRA (getConstSubGraph app));
  let cost := cost + c in
  if bool_decide (cost > penalty) then put_routing_cost (cost + penalty) else
  c ← call_stage Call_input_routing
        (input_routing router CGRA (getInputSubGraph app));
  let cost := cost + c in
  if bool_decide (cost > penalty) then put_routing_cost (cost + penalty) else
  c ← (if bool_decide (getPregNumber CGRA > 0)
       then fun m : Machine =>
              call_stage (Call_output_routing true)
                (fun mp g => output_routing router CGRA (getOutputSubGraph app)
                               mp g (Some (preg (cand m)))) m
       else call_stage (Call_output_routing false)
              (fun mp g => output_routing router CGRA (getOutputSubGraph app)
                             mp g None));
  let cost := cost + c in
  if bool_decide (cost > penalty) then put_routing_cost (cost + penalty)
  else
    put_routing_cost cost;;
    call_clean_graph router;;
    call_validate.

(** The list comprehension of [eval_objectives]: each objective in
    registered order, on the same candidate. *)
Fixpoint eval_each (CGRA : PEArrayModel) (app : Application)
    (sim_params : SimParameters) (l : list (EvalBase * EvalArgs))
  : Eff (list Z) :=
  match l with
  | [] => mret []
  | (eval_cls, args) :: l' =>
      v ← call_eval eval_cls CGRA app sim_params args;
      vs ← eval_each CGRA app sim_params l';
      mret (v :: vs)
  end.

Definition eval_objectives (eval_list : list EvalBase)
    (eval_args : list EvalArgs) (CGRA : PEArrayModel) (app : Application)
    (sim_params : SimParameters) (router : RouterBase) : Eff (list Z) :=
  doRouting CGRA app router;;
  eval_each CGRA app sim_params (zip eval_list eval_args).


(** *** The optimizer object *)

(** [self.__params]: the entries that the generational loop reads, in a
    configuration where they are all present with integer values (the
    probabilities are only passed on to [varOr]). *)
Record Params : Type := {
  Initial_population_size : Z;
  Offspring_size : Z;
  Crossover_probability : Q;
  Mutation_probability : Q;
  Select_size : Z;
  Random_population_size : Z;
  Maximum_generation : Z;
  Maximum_stall : Z
}.

Record t : Type := {
  params : Params;
  router : RouterBase;
  eval_list : list EvalBase;
  eval_args : list EvalArgs;
  pop : list Individual;
  hv_logging : bool;
  hv_refpoint : option (list Q)
}.

Definition set_hv_logging (b : bool) (self : t) : t :=
  {| params := params self; router := router self;
     eval_list := eval_list self; eval_args := eval_args self;
     pop := pop self; hv_logging := b; hv_refpoint := hv_refpoint self |}.

Definition set_hv_refpoint (r : option (list Q)) (self : t) : t :=
  {| params := params self; router := router self;
     eval_list := eval_list self; eval_args := eval_args self;
     pop := pop self; hv_logging := hv_logging self; hv_refpoint := r |}.

Definition set_pop (p : list Individual) (self : t) : t :=
  {| params := params self; router := router self;
     eval_list := eval_list self; eval_args := eval_args self;
     pop := p; hv_logging := hv_logging self;
     hv_refpoint := hv_refpoint self |}.

(** [__init__], from a configuration whose parameters, router class and
    objective classes are already resolved. [pygmo_available] tells whether
    [from pygmo.core import hypervolume] succeeds. *)
Definition init (prm : Params) (rtr : RouterBase) (evals : list EvalBase)
    (args : list EvalArgs) (pygmo_available : bool) : result t :=
  if bool_decide (length evals = 0%nat)
  then Raise (ValueError "At least, one objective is needed")
  else Ok {| params := prm; router := rtr;
             eval_list := evals; eval_args := args;
             pop := [];
             hv_logging := pygmo_available;
             hv_refpoint := None |}.

(** [setup]. [init_maps] is what the placer's [generate_init_mappings]
    returned. The toolbox that [setup] registers is the [Toolbox] record
    below, which the generational loop receives. *)
Definition setup (self : t) (init_maps : list Mapping) : bool * t :=
  let self :=
    if bool_decide (length (eval_list self) = 1%nat)
    then set_hv_logging false self else self in
  if bool_decide (length init_maps < 1)%nat then (false, self)
  else (true, self).

(** What a call printed, what it returned and the object afterwards. *)
Record Outcome : Type := {
  printed : list string;
  returned : bool;
  self_after : t
}.

(** [set_ref_point] *)
Definition set_ref_point (self : t) (ref_point : list Q) : Outcome :=
  if negb (hv_logging self) then
    {| printed := ["Hypervolume logging is disabled";
                   "Ref-point option is ignored"];
       returned := true; self_after := self |}
  else
    if bool_decide (length (eval_list self) < length ref_point)%nat then
      {| printed := ["Too few of ref point values"];
         returned := false; self_after := self |}
    else if bool_decide (length ref_point < length (eval_list self))%nat then
      {| printed := ["Too much of ref point values"];
         returned := false; self_after := self |}
    else
      {| printed := [];
         returned := true;
         self_after := set_hv_refpoint (Some ref_point) self |}.

(** *** The generational loop *)

(** The state of the random number generator, threaded through the
    randomized collaborators. *)
Definition Rng := nat.

(** What [setup] registers in the toolbox, with the placer and the deap
    operators behind it:
    [individual] and [random_individual] are [creator.Individual],
    [varOr] is [algorithms.varOr] with the registered [mate] and [mutate],
    [select] is [tools.selNSGA2], and [hof_update] is the [update] method of
    [tools.ParetoFront]. *)
Record Toolbox : Type := {
  individual : Rng -> Individual * Rng;
  make_random_mappings : Rng -> list Mapping * Rng;
  random_individual : list Mapping -> Rng -> Individual * Rng;
  varOr : list Individual -> Z -> Q -> Q -> Rng -> list Individual * Rng;
  select : list Individual -> Z -> list Individual;
  hof_update : list Individual -> list Individual -> list Individual
}.

(** The hypervolume class of pygmo: its constructor (which checks the
    points), [refpoint(offset)] and [compute(ref_point)]. *)
Record Pygmo : Type := {
  hypervolume : list (list Z) -> result unit;
  refpoint : list (list Z) -> Q -> result (list Q);
  compute : list (list Z) -> list Q -> result Q
}.

(** [f() for _ in range(n)], as in [tools.initRepeat] and in the list
    comprehension of [random_population]. *)
Fixpoint init_repeat {A : Type} (f : Rng -> A * Rng) (n : nat) (rng : Rng)
  : list A * Rng :=
  match n with
  | O => ([], rng)
  | S n' =>
      let '(a, rng1) := f rng in
      let '(l, rng2) := init_repeat f n' rng1 in
      (a :: l, rng2)
  end.

(** [toolbox.map]: the results in the order of the inputs. When one input
    raises, its exception is raised; when several inputs raise, the pool
    raises the exception that arrives first, which this function takes to be
    the one of the first such input. *)
Fixpoint toolbox_map {A B : Type} (f : A -> result B) (l : list A)
  : result (list B) :=
  match l with
  | [] => mret []
  | a :: l' =>
      b ← f a;
      bs ← toolbox_map f l';
      mret (b :: bs)
  end.

(** [fitnesses, inds = (list(l) for l in zip( *results))]: unpacking fails
    when there is no result at all. *)
Definition unpack2 (results : list (list Z * Individual))
  : result (list (list Z) * list Individual) :=
  match results with
  | [] => Raise (ValueError "not enough values to unpack (expected 2, got 0)")
  | _ :: _ => Ok (results.*1, results.*2)
  end.

(** [set([ind.fitness.values for ind in hof])] *)
Definition fitness_set (hof : list Individual) : gset (list Z) :=
  list_to_set (fitness_values <$> hof).

(** The improvement check of the loop body. *)
Definition update_stall (hof prev_hof : list Individual) (stall_count : Z)
  : Z :=
  if bool_decide (length hof = length prev_hof) then
    if bool_decide (fitness_set hof = fitness_set prev_hof)
    then stall_count + 1
    else 0
  else 0.

(** [self.stats.compile(hof)]: numpy's [min] and [max] along axis 0 raise on
    an empty archive. *)
Definition stats_compile (hof : list Individual) : result unit :=
  match hof with
  | [] => Raise (ValueError "zero-size array to reduction operation minimum")
  | _ :: _ => Ok tt
  end.

Record LoopState : Type := {
  obj : t;
  hof : list Individual;
  gen_count : Z;
  stall_count : Z;
  prev_hof : list Individual;
  fitness_hof_log : list (list (list Z));
  rng : Rng
}.

Section Run.

Variable CGRA : PEArrayModel.
Variable app : Application.
Variable sim_params : SimParameters.
Variable toolbox : Toolbox.
Variable pygmo : Pygmo.

Definition population (n : Z) (r : Rng) : list Individual * Rng :=
  init_repeat (individual toolbox) (Z.to_nat n) r.

(** [random_population] *)
Definition random_population (n : Z) (r : Rng) : list Individual * Rng :=
  let '(random_mappings, r1) := make_random_mappings toolbox r in
  init_repeat (random_individual toolbox random_mappings) (Z.to_nat n) r1.

(** [toolbox.evaluate]: [eval_objectives] on one candidate; it returns the
    fitness and the candidate as the evaluation left it. *)
Definition evaluate (self : t) (ind : Individual)
  : result (list Z * Individual) :=
  match eval_objectives (eval_list self) (eval_args self) CGRA app sim_params
          (router self) {| cand := ind; calls := [] |} with
  | Ok (fit, m) => Ok (fit, cand m)
  | Raise e => Raise e
  end.

(** Evaluate a batch and attach each fitness to its candidate. *)
Definition evaluate_all (self : t) (inds : list Individual)
  : result (list Individual) :=
  results ← toolbox_map (evaluate self) inds;
  '(fitnesses, inds') ← unpack2 results;
  mret (zip_with (fun ind fit => set_fitness_values fit ind) inds' fitnesses).

(** The body of the [while] loop. *)
Definition generation (st : LoopState) : result LoopState :=
  let self := obj st in
  let prm := params self in
  let gen_count' := gen_count st + 1 in
  let '(offspring, r1) :=
    varOr toolbox (pop self) (Offspring_size prm)
      (Crossover_probability prm) (Mutation_probability prm) (rng st) in
  offspring' ← evaluate_all self offspring;
  let pop1 := select toolbox (pop self ++ offspring') (Select_size prm) in
  let hof' := hof_update toolbox (hof st) pop1 in
  let stall_count' := update_stall hof' (prev_hof st) (stall_count st) in
  let log' :=
    fitness_hof_log st ++
    [fitness_values <$> filter (fun ind => isValid ind = true) hof'] in
  let '(rnd_ind, r2) := random_population (Random_population_size prm) r1 in
  rnd_ind' ← evaluate_all self rnd_ind;
  let pop2 := pop1 ++ rnd_ind' in
  _ ← stats_compile hof';
  mret {| obj := set_pop pop2 self;
          hof := hof';
          gen_count := gen_count';
          stall_count := stall_count';
          prev_hof := hof';
          fitness_hof_log := log';
          rng := r2 |}.

(** The condition of the [while] loop. *)
Definition loop_cond (st : LoopState) : bool :=
  bool_decide (gen_count st < Maximum_generation (params (obj st))) &&
  bool_decide (stall_count st < Maximum_stall (params (obj st))).

(** The [while] loop; [None] when the fuel runs out. *)
Fixpoint while_loop (fuel : nat) (st : LoopState)
  : option (result LoopState) :=
  if loop_cond st then
    match fuel with
    | O => None
    | S fuel' =>
        match generation st with
        | Ok st' => while_loop fuel' st'
        | Raise e => Some (Raise e)
        end
    end
  else Some (Ok st).

(** The state in which the loop is entered. *)
Definition initial_state (self : t) (r : Rng) : result LoopState :=
  let '(pop0, r1) :=
    population (Initial_population_size (params self)) r in
  pop0' ← evaluate_all self pop0;
  mret {| obj := set_pop pop0' self;
          hof := [];
          gen_count := 0;
          stall_count := 0;
          prev_hof := [];
          fitness_hof_log := [];
          rng := r1 |}.

(** What follows the loop: the archive restricted to valid candidates and
    the hypervolume series, if any. *)
Definition finish (st : LoopState)
  : result (list Individual * option (list Q) * t) :=
  let self := obj st in
  let hof' := filter (fun ind => isValid ind = true) (hof st) in
  if hv_logging self && bool_decide (0 < length hof')%nat then
    _ ← hypervolume pygmo (mjoin (fitness_hof_log st));
    ref ← match hv_refpoint self with
          | None => refpoint pygmo (mjoin (fitness_hof_log st)) (1 # 10)%Q
          | Some r => mret r
          end;
    hypervolume_log ←
      toolbox_map
        (fun fit => if bool_decide (0 < length fit)%nat
                    then hypervolume pygmo fit;; compute pygmo fit ref
                    else mret 0%Q)
        (fitness_hof_log st);
    mret (hof', Some hypervolume_log, set_hv_refpoint (Some ref) self)
  else mret (hof', None, self).

(** [runOptimization]. The generation counter grows by one in each
    iteration, so [Maximum generation] iterations are enough fuel. *)
Definition runOptimization (self : t) (r : Rng)
  : option (result (list Individual * option (list Q) * t)) :=
  match initial_state self r with
  | Raise e => Some (Raise e)
  | Ok st0 =>
      match while_loop (Z.to_nat (Maximum_generation (params self))) st0 with
      | None => None
      | Some (Raise e) => Some (Raise e)
      | Some (Ok st) => Some (finish st)
      end
  end.

End Run.

End NSGA2.

(** ** The constructor of [NSGA2] *)

Module Constructor.

(** An element of the XML configuration (an [ElementTree] element): its
    tag, its attributes, its text and its sub-elements. *)
#[warnings="-register-all"]
Inductive Element : Type :=
  | Elem (tag : string) (attrib : gmap string string) (text : option string)
         (children : list Element).

Definition tag_of (e : Element) : string :=
  match e with Elem t _ _ _ => t end.
Definition attrib_of (e : Element) : gmap string string :=
  match e with Elem _ a _ _ => a end.
Definition text_of (e : Element) : option string :=
  match e with Elem _ _ x _ => x end.
Definition children_of (e : Element) : list Element :=
  match e with Elem _ _ _ cs => cs end.

(** The element and all the elements below it, in document order. *)
Fixpoint iter_all (e : Element) : list Element :=
  match e with
  | Elem _ _ _ cs =>
      e :: (fix below (l : list Element) : list Element :=
              match l with
              | [] => []
              | c :: l' => iter_all c ++ below l'
              end) cs
  end.

(** [e.iter(tag)] *)
Definition iter (tag : string) (e : Element) : list Element :=
  filter (fun x => tag_of x = tag) (iter_all e).

(** [e.find(tag)]: the first sub-element with this tag. *)
Definition find (tag : string) (e : Element) : option Element :=
  head (filter (fun x => tag_of x = tag) (children_of e)).

(** How the constructor can fail: with an exception that it raises itself,
    or with one that comes out of [import_module], [getattr] or [eval] and
    that it does not catch. *)
Inductive failure : Type :=
  | Raised (e : exn)
  | Uncaught (origin : string).

Inductive attempt (A : Type) : Type :=
  | Done (a : A)
  | Failed (f : failure).
Arguments Done {A} a.
Arguments Failed {A} f.

#[global] Instance attempt_ret : MRet attempt := fun _ a => Done a.
#[global] Instance attempt_bind : MBind attempt := fun _ _ f r =>
  match r with
  | Done a => f a
  | Failed e => Failed e
  end.

(** What [getattr(import_module(name), name)] gives. *)
Inductive ClassKind : Type :=
  | IsRouter (r : RouterBase)
  | IsEval (e : EvalBase)
  | IsOther.

Inductive PyObject : Type :=
  | Class (cls_name : string) (kind : ClassKind)
  | NotAClass.

(** What [eval(args)] gives. *)
Inductive Evaluated : Type :=
  | NameOrSyntaxError
  | OtherError
  | Dict (d : EvalArgs)
  | NotADict (str : string).

Section WithPython.

(** The floating point numbers of Python, and the built-in functions that
    the constructor calls: [int] and [float] on a string ([None] stands for
    their [ValueError]), the loading of a class by its name, and [eval],
    taken as a function of the text of the args attribute. *)
Variable Float : Type.
Variable py_int : string -> option Z.
Variable py_float : string -> option Float.
Variable import_class : string -> attempt PyObject.
Variable py_eval : string -> Evaluated.

Inductive Number : Type :=
  | PyInt (z : Z)
  | PyFloat (f : Float).

(** The object that the constructor builds. *)
Record Object : Type := {
  params : gmap string Number;
  router : RouterBase;
  eval_list : list EvalBase;
  eval_args : list EvalArgs;
  pop : list Individual;
  hv_logging : bool;
  hv_refpoint : option (list Q)
}.

(** [int(text)], then [float(text)], then the error. *)
Definition parse_value (text : string) : attempt Number :=
  match py_int text with
  | Some z => Done (PyInt z)
  | None =>
      match py_float text with
      | Some f => Done (PyFloat f)
      | None => Failed (Raised (ValueError ("Invalid parameter: " +:+ text)))
      end
  end.

(** The loop over [config.iter("parameter")]. *)
Fixpoint get_parameters (ps : list Element) (acc : gmap string Number)
  : attempt (gmap string Number) :=
  match ps with
  | [] => Done acc
  | param :: ps' =>
      match attrib_of param !! "name" with
      | Some name =>
          match text_of param with
          | Some text =>
              value ← parse_value text;
              get_parameters ps' (<[name := value]> acc)
          | None =>
              Failed (Raised (ValueError
                                ("missing parameter value for " +:+ name)))
          end
      | None => Failed (Raised (ValueError "missing parameter name"))
      end
  end.

(** The router class. *)
Definition get_router (config : Element) : attempt RouterBase :=
  match find "Router" config with
  | None => Failed (Raised (ValueError "missing Router class"))
  | Some el =>
      match text_of el with
      | None => Failed (Raised (ValueError "Router class name is empty"))
      | Some router_name =>
          obj ← import_class router_name;
          match obj with
          | Class _ (IsRouter r) => Done r
          | Class cls_name _ =>
              Failed (Raised (TypeError
                                (cls_name +:+ " is not RouterBase class")))
          | NotAClass =>
              Failed (Raised (TypeError "issubclass() arg 1 must be a class"))
          end
      end
  end.

(** [l.index(x)] for an [x] that occurs in [l]. *)
Fixpoint index {A : Type} `{EqDecision A} (x : A) (l : list A) : nat :=
  match l with
  | [] => 0
  | y :: l' => if decide (y = x) then 0%nat else S (index x l')
  end.

(** The loop over the objective names. *)
Fixpoint load_evals (eval_names : list string) : attempt (list EvalBase) :=
  match eval_names with
  | [] => Done []
  | eval_name :: names' =>
      obj ← import_class eval_name;
      match obj with
      | Class _ (IsEval evl) =>
          evls ← load_evals names';
          Done (evl :: evls)
      | Class cls_name _ =>
          Failed (Raised (TypeError (cls_name +:+ " is not EvalBase class")))
      | NotAClass =>
          Failed (Raised (TypeError "issubclass() arg 1 must be a class"))
      end
  end.

Definition get_objectives (config : Element) : attempt (list EvalBase) :=
  let eval_names := text_of <$> iter "eval" config in
  if bool_decide (length eval_names = 0%nat) then
    Failed (Raised (ValueError "At least, one objective is needed"))
  else if bool_decide (None ∈ eval_names) then
    Failed (Raised (ValueError
                      ("missing No." +:+
                       pretty (index None eval_names + 1)%nat +:+
                       " objective name")))
  else load_evals (omap id eval_names).

(** The loop over the arguments of the objectives; [all] is the whole list
    [eval_args_str]. *)
Fixpoint get_eval_args (all rest : list (option string))
  : attempt (list EvalArgs) :=
  match rest with
  | [] => Done []
  | None :: rest' =>
      ds ← get_eval_args all rest';
      Done (∅ :: ds)
  | Some args :: rest' =>
      match py_eval args with
      | NameOrSyntaxError =>
          Failed (Raised (ValueError
                            ("Invalid arguments for No." +:+
                             pretty (index (Some args) all + 1)%nat +:+
                             " objective")))
      | OtherError => Failed (Uncaught "eval")
      | Dict d =>
          ds ← get_eval_args all rest';
          Done (d :: ds)
      | NotADict str =>
          Failed (Raised (ValueError
                            ("Arguments of evaluation function must be dict: "
                             +:+ str)))
      end
  end.

(** [NSGA2.__init__]. [pygmo_available] tells whether
    [from pygmo.core import hypervolume] succeeds. *)
Definition __init__ (config : Element) (pygmo_available : bool)
  : attempt Object :=
  prm ← get_parameters (iter "parameter" config) ∅;
  rtr ← get_router config;
  evals ← get_objectives config;
  let eval_args_str :=
    (fun ele => attrib_of ele !! "args") <$> iter "eval" config in
  args ← get_eval_args eval_args_str eval_args_str;
  Done {| params := prm;
          router := rtr;
          eval_list := evals;
          eval_args := args;
          pop := [];
          hv_logging := pygmo_available;
          hv_refpoint := None |}.

(** A parameter element that the loop accepts. *)
Definition parameter_ok (param : Element) : Prop :=
  ∃ name text,
    attrib_of param !! "name" = Some name ∧
    text_of param = Some text ∧
    (is_Some (py_int text) ∨ is_Some (py_float text)).

(** The value that the text of a parameter element stands for. *)
Definition parameter_value (param : Element) : option Number :=
  match text_of param with
  | Some text =>
      match parse_value text with
      | Done v => Some v
      | Failed _ => None
      end
  | None => None
  end.

(** The last of the parameter elements with a given name. *)
Definition last_parameter (name : string) (ps : list Element)
  : option Element :=
  last (filter (fun param => attrib_of param !! "name" = Some name) ps).


End WithPython.

(** Whether the constructor returned an object. *)
Definition is_done {A : Type} (a : attempt A) : bool :=
  match a with
  | Done _ => true
  | Failed _ => false
  end.

Arguments PyInt {Float} z.
Arguments PyFloat {Float} f.
Arguments params {Float} o.
Arguments router {Float} o.
Arguments eval_list {Float} o.
Arguments eval_args {Float} o.
Arguments pop {Float} o.
Arguments hv_logging {Float} o.
Arguments hv_refpoint {Float} o.

End Constructor.

(** ** Notions used in the statements *)

(** A node of the candidate's routed graph that the model classifies as an
    SE or as an ALU. *)
Definition used_node (CGRA : PEArrayModel) (ind : Individual) (v : Node)
  : Prop :=
  v ∈ nodes (routed_graph ind) ∧ (isSE CGRA v = true ∨ isALU CGRA v = true).

(** Column [c] of the grid holds, in the resources of one of its PEs, a used
    node. *)
Definition column_occupied (CGRA : PEArrayModel) (ind : Individual) (c : Z)
  : Prop :=
  ∃ v y, used_node CGRA ind v ∧
         0 ≤ c < (getSize CGRA).1 ∧ 0 ≤ y < (getSize CGRA).2 ∧
         MapWidthEval.in_PE CGRA v c y = true.

Definition rightmost_column (CGRA : PEArrayModel) (ind : Individual) (c : Z)
  : Prop :=
  column_occupied CGRA ind c ∧ ∀ c', column_occupied CGRA ind c' → c' ≤ c.

(** The same notions read off the architecture model alone. A node belongs
    to the resources of a PE when one of the sets of the PE's "SE" entry
    contains it, or when it is the PE's ALU. *)
Definition in_resources (rsc : PEResources) (v : Node) : Prop :=
  (∃ key se_set, rsc_SE rsc !! key = Some se_set ∧ v ∈ se_set) ∨
  v = rsc_ALU rsc.

(** Column [c] is used by the candidate: a PE at a coordinate [(c, y)] of
    the grid has, among its resources, an SE or ALU node of the candidate's
    routed graph. *)
Definition column_used (CGRA : PEArrayModel) (ind : Individual) (c : Z)
  : Prop :=
  ∃ v y, v ∈ nodes (routed_graph ind) ∧
         (isSE CGRA v = true ∨ isALU CGRA v = true) ∧
         0 ≤ c < (getSize CGRA).1 ∧ 0 ≤ y < (getSize CGRA).2 ∧
         in_resources (get_PE_resources CGRA (c, y)) v.

Definition rightmost_used_column (CGRA : PEArrayModel) (ind : Individual)
    (c : Z) : Prop :=
  column_used CGRA ind c ∧ ∀ c', column_used CGRA ind c' → c' ≤ c.

(** The stages of the routing pipeline run one after the other from the
    candidate [ind]: the cost and the routing graph after each of them. *)
Section Stages.

Variable CGRA : PEArrayModel.
Variable app : Application.
Variable router : RouterBase.
Variable ind : Individual.

Definition after_comp : Z * DiGraph :=
  comp_routing router CGRA (getCompSubGraph app) (mapping ind)
    (routed_graph ind).

Definition after_const : Z * DiGraph :=
  const_routing router CGRA (getConstSubGraph app) (mapping ind)
    after_comp.2.

Definition after_input : Z * DiGraph :=
  input_routing router CGRA (getInputSubGraph app) (mapping ind)
    after_const.2.

Definition after_output : Z * DiGraph :=
  output_routing router CGRA (getOutputSubGraph app) (mapping ind)
    after_input.2
    (if bool_decide (getPregNumber CGRA > 0) then Some (preg ind) else None).

(** The running totals at the four stage boundaries. *)
Definition total1 : Z := after_comp.1.
Definition total2 : Z := total1 + after_const.1.
Definition total3 : Z := total2 + after_input.1.
Definition total4 : Z := total3 + after_output.1.

Definition within_penalty : Prop :=
  let P := get_penalty_cost router in
  total1 ≤ P ∧ total2 ≤ P ∧ total3 ≤ P ∧ total4 ≤ P.

(** The running total at the first boundary where it exceeds the penalty
    (the last total when there is none). *)
Definition first_excess : Z :=
  let P := get_penalty_cost router in
  if bool_decide (total1 > P) then total1
  else if bool_decide (total2 > P) then total2
  else if bool_decide (total3 > P) then total3
  else total4.

(** The routing graph at that boundary: what a routing that does not
    validate the candidate leaves behind. *)
Definition stopped_graph : DiGraph :=
  let P := get_penalty_cost router in
  if bool_decide (total1 > P) then after_comp.2
  else if bool_decide (total2 > P) then after_const.2
  else if bool_decide (total3 > P) then after_input.2
  else after_output.2.

(** The calls of a routing that passes all four boundaries. *)
Definition full_routing_calls : list Call :=
  [Call_get_penalty_cost; Call_comp_routing; Call_const_routing;
   Call_input_routing;
   Call_output_routing (bool_decide (getPregNumber CGRA > 0));
   Call_clean_graph after_output.2; Call_validate].

End Stages.


(** Successive calls of [set_ref_point] on the optimizer. *)
Definition set_ref_points (self : NSGA2.t) (ref_points : list (list Q))
  : NSGA2.t :=
  foldl (fun s rp => NSGA2.self_after (NSGA2.set_ref_point s rp))
    self ref_points.

(** [reaches st0 st]: the loop, entered in [st0], is in [st] after some
    iterations, each of them run with both counters below their maxima. *)
Inductive reaches (CGRA : PEArrayModel) (app : Application)
    (sim_params : SimParameters) (tb : NSGA2.Toolbox)
  : NSGA2.LoopState -> NSGA2.LoopState -> Prop :=
  | reaches_here st : reaches CGRA app sim_params tb st st
  | reaches_step st st1 st2 :
      NSGA2.gen_count st <
        NSGA2.Maximum_generation (NSGA2.params (NSGA2.obj st)) ->
      NSGA2.stall_count st <
        NSGA2.Maximum_stall (NSGA2.params (NSGA2.obj st)) ->
      NSGA2.generation CGRA app sim_params tb st = Ok st1 ->
      reaches CGRA app sim_params tb st1 st2 ->
      reaches CGRA app sim_params tb st st2.

(** What holds in every state of the loop after at least one generation:
    the archive is not empty and is remembered as the previous one, the
    stall counter is below the generation counter, and the fitness history
    has one entry for each generation. *)
Definition after_a_generation (st : NSGA2.LoopState) : Prop :=
  1 ≤ NSGA2.gen_count st ∧
  NSGA2.hof st ≠ [] ∧
  NSGA2.prev_hof st = NSGA2.hof st ∧
  0 ≤ NSGA2.stall_count st ≤ NSGA2.gen_count st - 1 ∧
  length (NSGA2.fitness_hof_log st) = Z.to_nat (NSGA2.gen_count st).

(** The value of a computation that did not raise. *)
Definition from_Ok {A : Type} (d : A) (r : result A) : A :=
  match r with
  | Ok a => a
  | Raise _ => d
  end.

Definition succeeded {A : Type} (r : result A) : bool :=
  match r with
  | Ok _ => true
  | Raise _ => false
  end.

(** The state in which a loop ended normally. *)
Definition loop_end {A : Type} (d : A) (o : option (result A)) : A :=
  match o with
  | Some (Ok a) => a
  | _ => d
  end.

Definition ended {A : Type} (o : option (result A)) : bool :=
  match o with
  | Some (Ok _) => true
  | _ => false
  end.

(** ** A small instance: a 2 x 2 array *)

Module Demo.

Definition pe (alu se : Node) : PEResources :=
  {| rsc_SE := {[ 0 := {[ se ]} ]}; rsc_ALU := alu |}.

Definition CGRA : PEArrayModel :=
  {| getSize := (2, 2);
     isSE := fun v =>
       bool_decide (v ∈ ["SE_0_0"; "SE_0_1"; "SE_1_0"; "SE_1_1"]);
     isALU := fun v =>
       bool_decide (v ∈ ["ALU_0_0"; "ALU_0_1"; "ALU_1_0"; "ALU_1_1"]);
     get_PE_resources := fun p =>
       if bool_decide (p = (0, 0)) then pe "ALU_0_0" "SE_0_0"
       else if bool_decide (p = (0, 1)) then pe "ALU_0_1" "SE_0_1"
       else if bool_decide (p = (1, 0)) then pe "ALU_1_0" "SE_1_0"
       else pe "ALU_1_1" "SE_1_1";
     getPregNumber := 0 |}.

Definition graph (ns : list Node) : DiGraph := {| nodes := ns; edges := [] |}.

Definition app : Application :=
  {| getCompSubGraph := graph ["add"];
     getConstSubGraph := graph [];
     getInputSubGraph := graph ["a"];
     getOutputSubGraph := graph ["out"] |}.

Definition candidate (ns : list Node) (is_valid : bool) (fit : list Z)
  : Individual :=
  {| mapping := {[ "add" := (0, 0) ]};
     preg := [];
     routed_graph := graph ns;
     routing_cost := 0;
     valid := is_valid;
     fitness_values := fit;
     evaluated_data := ∅ |}.

(** Uses column 0 and column 1. *)
Definition wide : Individual := candidate ["ALU_0_0"; "SE_1_1"] false [].
(** Uses column 0 only. *)
Definition narrow : Individual := candidate ["SE_0_1"; "add"] false [].
(** Uses no SE and no ALU. *)
Definition blank : Individual := candidate ["add"; "a"] false [].

(** A router whose stages have fixed costs; each stage leaves a node of its
    own in the routing graph, and the cleanup removes the node of the
    computation stage. *)
Definition stage (c : Z) (v : Node)
  : PEArrayModel -> DiGraph -> Mapping -> DiGraph -> Z * DiGraph :=
  fun _ _ _ g => (c, graph (nodes g ++ [v])).

Definition fixed_router (penalty c1 c2 c3 c4 : Z) : RouterBase :=
  {| get_penalty_cost := penalty;
     comp_routing := stage c1 "tmp";
     const_routing := stage c2 "SE_0_0";
     input_routing := stage c3 "SE_0_1";
     output_routing := fun cgra sub mp g _ => stage c4 "ALU_0_1" cgra sub mp g;
     clean_graph := fun g =>
       graph (filter (fun v => v ≠ "tmp") (nodes g)) |}.

(** An objective that reports the routing cost. *)
Definition RoutingCostEval : EvalBase :=
  {| eval := fun _ _ _ individual _ => Ok (routing_cost individual, individual);
     isMinimize := true;
     name := "Routing_Cost" |}.

Definition prm : NSGA2.Params :=
  {| NSGA2.Initial_population_size := 4;
     NSGA2.Offspring_size := 4;
     NSGA2.Crossover_probability := (7 # 10)%Q;
     NSGA2.Mutation_probability := (3 # 10)%Q;
     NSGA2.Select_size := 4;
     NSGA2.Random_population_size := 2;
     NSGA2.Maximum_generation := 100;
     NSGA2.Maximum_stall := 3 |}.

(** Two objectives, pygmo installed. *)
Definition engine : NSGA2.t :=
  {| NSGA2.params := prm;
     NSGA2.router := fixed_router 100 1 2 3 4;
     NSGA2.eval_list := [MapWidthEval_cls; RoutingCostEval];
     NSGA2.eval_args := [∅; ∅];
     NSGA2.pop := [];
     NSGA2.hv_logging := true;
     NSGA2.hv_refpoint := None |}.

(** A toolbox without randomness: offspring are clones of the first
    member, selection keeps the first [k] individuals, and the archive keeps
    the first candidate it has seen. *)
Definition toolbox : NSGA2.Toolbox :=
  {| NSGA2.individual := fun r => (wide, S r);
     NSGA2.make_random_mappings := fun r => ([], S r);
     NSGA2.random_individual := fun _ r => (narrow, S r);
     NSGA2.varOr := fun pop lambda_ _ _ r =>
       (replicate (Z.to_nat lambda_) (default wide (head pop)), S r);
     NSGA2.select := fun l k => take (Z.to_nat k) l;
     NSGA2.hof_update := fun hof pop =>
       match hof with
       | [] => take 1 pop
       | _ :: _ => hof
       end |}.

Definition pygmo : NSGA2.Pygmo :=
  {| NSGA2.hypervolume := fun _ => Ok tt;
     NSGA2.refpoint := fun _ _ => Ok [10%Q; 20%Q];
     NSGA2.compute := fun pts _ => Ok (inject_Z (Z.of_nat (length pts))) |}.

(** The state in which the loop is entered, for the generator state 0. *)
Definition state0 : NSGA2.LoopState :=
  from_Ok
    {| NSGA2.obj := engine; NSGA2.hof := []; NSGA2.gen_count := 0;
       NSGA2.stall_count := 0; NSGA2.prev_hof := [];
       NSGA2.fitness_hof_log := []; NSGA2.rng := 0%nat |}
    (NSGA2.initial_state CGRA app ∅ toolbox engine 0%nat).

(** The states after the first and after the second generation. *)
Definition state1 : NSGA2.LoopState :=
  from_Ok state0 (NSGA2.generation CGRA app ∅ toolbox state0).
Definition state2 : NSGA2.LoopState :=
  from_Ok state0 (NSGA2.generation CGRA app ∅ toolbox state1).

(** One objective only, pygmo installed. *)
Definition single : NSGA2.t :=
  {| NSGA2.params := prm;
     NSGA2.router := fixed_router 100 1 2 3 4;
     NSGA2.eval_list := [MapWidthEval_cls];
     NSGA2.eval_args := [∅];
     NSGA2.pop := [];
     NSGA2.hv_logging := true;
     NSGA2.hv_refpoint := None |}.

(** The same optimizer with a router whose computation stage alone exceeds
    the penalty. *)
Definition engine_tight : NSGA2.t :=
  {| NSGA2.params := prm;
     NSGA2.router := fixed_router 5 7 0 0 0;
     NSGA2.eval_list := [MapWidthEval_cls; RoutingCostEval];
     NSGA2.eval_args := [∅; ∅];
     NSGA2.pop := [];
     NSGA2.hv_logging := true;
     NSGA2.hv_refpoint := None |}.

(** The optimizer with other sizes and limits. *)
Definition params_of (initial random max_generation : Z) : NSGA2.Params :=
  {| NSGA2.Initial_population_size := initial;
     NSGA2.Offspring_size := 4;
     NSGA2.Crossover_probability := (7 # 10)%Q;
     NSGA2.Mutation_probability := (3 # 10)%Q;
     NSGA2.Select_size := 4;
     NSGA2.Random_population_size := random;
     NSGA2.Maximum_generation := max_generation;
     NSGA2.Maximum_stall := 3 |}.

Definition engine_of (p : NSGA2.Params) : NSGA2.t :=
  {| NSGA2.params := p;
     NSGA2.router := fixed_router 100 1 2 3 4;
     NSGA2.eval_list := [MapWidthEval_cls; RoutingCostEval];
     NSGA2.eval_args := [∅; ∅];
     NSGA2.pop := [];
     NSGA2.hv_logging := true;
     NSGA2.hv_refpoint := None |}.

(** The state in which the loop is entered when no generation is allowed. *)
Definition state0_idle : NSGA2.LoopState :=
  from_Ok state0
    (NSGA2.initial_state CGRA app ∅ toolbox (engine_of (params_of 4 2 0))
       0%nat).

(** The state in which the loop of the first optimizer ends. *)
Definition final : NSGA2.LoopState :=
  loop_end state0 (NSGA2.while_loop CGRA app ∅ toolbox 100 state0).

(** A Python in which [int] and [float] know a few texts, three classes can
    be loaded and [eval] knows three expressions. *)
Definition py_int (text : string) : option Z :=
  (list_to_map [("4", 4); ("2", 2); ("3", 3); ("100", 100)]
     : gmap string Z) !! text.

Definition py_float (text : string) : option Q :=
  (list_to_map [("0.7", (7 # 10)%Q); ("0.3", (3 # 10)%Q); ("4", 4%Q)]
     : gmap string Q) !! text.

Definition import_class (name : string)
  : Constructor.attempt Constructor.PyObject :=
  if bool_decide (name = "DemoRouter") then
    Constructor.Done
      (Constructor.Class "DemoRouter"
         (Constructor.IsRouter (fixed_router 100 1 2 3 4)))
  else if bool_decide (name = "MapWidthEval") then
    Constructor.Done
      (Constructor.Class "MapWidthEval" (Constructor.IsEval MapWidthEval_cls))
  else if bool_decide (name = "RoutingCostEval") then
    Constructor.Done
      (Constructor.Class "RoutingCostEval" (Constructor.IsEval RoutingCostEval))
  else Constructor.Failed (Constructor.Uncaught "import_module").

Definition py_eval (args : string) : Constructor.Evaluated :=
  if bool_decide (args = "{}") then Constructor.Dict ∅
  else if bool_decide (args = "{'w': 1}") then Constructor.Dict {[ "w" := 1 ]}
  else if bool_decide (args = "[1]") then Constructor.NotADict "[1]"
  else Constructor.NameOrSyntaxError.

Definition construct
  : Constructor.Element -> bool ->
    Constructor.attempt (Constructor.Object Q) :=
  Constructor.__init__ Q py_int py_float import_class py_eval.

(** Elements of a configuration. *)
Definition parameter (name text : string) : Constructor.Element :=
  Constructor.Elem "parameter" {[ "name" := name ]} (Some text) [].

Definition router_element : Constructor.Element :=
  Constructor.Elem "Router" ∅ (Some "DemoRouter") [].

Definition eval_element (name : option string) (args : option string)
  : Constructor.Element :=
  Constructor.Elem "eval"
    (match args with Some a => {[ "args" := a ]} | None => ∅ end) name [].

Definition configuration (elements : list Constructor.Element)
  : Constructor.Element :=
  Constructor.Elem "Config" ∅ None elements.

(** A configuration that the constructor accepts: "Select size" is given
    twice. *)
Definition config_ok : Constructor.Element :=
  configuration
    [parameter "Select size" "4";
     parameter "Crossover probability" "0.7";
     parameter "Select size" "2";
     router_element;
     eval_element (Some "MapWidthEval") None;
     eval_element (Some "RoutingCostEval") (Some "{'w': 1}")].

(** The second parameter has no value that [int] or [float] accepts; there
    is no router and no objective either. *)
Definition config_bad_parameter : Constructor.Element :=
  configuration
    [parameter "Select size" "4";
     parameter "Offspring size" "many";
     parameter "Maximum stall" "3"].

(** The second objective has no name. *)
Definition config_unnamed_objective : Constructor.Element :=
  configuration
    [parameter "Select size" "4";
     router_element;
     eval_element (Some "MapWidthEval") None;
     eval_element None None;
     eval_element (Some "NoSuchEval") None].


(** The same array without any column. *)
Definition no_columns : PEArrayModel :=
  {| getSize := (0, 2);
     isSE := isSE CGRA;
     isALU := isALU CGRA;
     get_PE_resources := get_PE_resources CGRA;
     getPregNumber := 0 |}.

(** Two different routed candidates with the same fitness. *)
Definition twin_a : Individual := candidate ["ALU_0_0"; "SE_1_0"] true [2; 7].
Definition twin_b : Individual := candidate ["ALU_1_1"; "SE_0_1"] true [2; 7].

(** A run that starts with 10 individuals: the state in which the loop is
    entered and the states after the first two generations. *)
Definition state0_large : NSGA2.LoopState :=
  from_Ok state0
    (NSGA2.initial_state CGRA app ∅ toolbox (engine_of (params_of 10 2 100))
       0%nat).
Definition state1_large : NSGA2.LoopState :=
  from_Ok state0 (NSGA2.generation CGRA app ∅ toolbox state0_large).
Definition state2_large : NSGA2.LoopState :=
  from_Ok state0 (NSGA2.generation CGRA app ∅ toolbox state1_large).

(** A router whose computation stage costs as much as the routing graph it
    is given has nodes; the other stages are those of [fixed_router]. *)
Definition growing_router (penalty c2 : Z) : RouterBase :=
  {| get_penalty_cost := penalty;
     comp_routing := fun _ _ _ g =>
       (Z.of_nat (length (nodes g)), graph (nodes g ++ ["tmp"]));
     const_routing := stage c2 "SE_0_0";
     input_routing := stage 0 "SE_0_1";
     output_routing := fun cgra sub mp g _ => stage 0 "ALU_0_1" cgra sub mp g;
     clean_graph := fun g =>
       graph (filter (fun v => v ≠ "tmp") (nodes g)) |}.

(** The candidate [narrow] before and after one routing with this router. *)
Definition attempt0 : Machine := {| cand := narrow; calls := [] |}.
Definition attempt1 : Machine :=
  (from_Ok (tt, attempt0)
     (NSGA2.doRouting CGRA app (growing_router 3 5) attempt0)).2.

End Demo.

(** ** Basic facts *)

Lemma from_Ok_spec {A : Type} (d : A) (r : result A) :
  succeeded r = true → r = Ok (from_Ok d r).
Proof. destruct r; [reflexivity|discriminate]. Qed.

Lemma succeeded_Ok {A : Type} (r : result A) :
  succeeded r = true → ∃ a, r = Ok a.
Proof. destruct r; [by eexists|discriminate]. Qed.

Lemma loop_end_spec {A : Type} (d : A) (o : option (result A)) :
  ended o = true → o = Some (Ok (loop_end d o)).
Proof. destruct o as [[a|e]|]; [reflexivity|discriminate|discriminate]. Qed.

Lemma from_Ok_unit_spec {A : Type} (d : unit * A) (r : result (unit * A)) :
  succeeded r = true → r = Ok (tt, (from_Ok d r).2).
Proof. destruct r as [[[] a]|e]; [reflexivity|discriminate]. Qed.

(** ** Properties of [MapWidthEval] *)

Section MapWidthEvalFacts.

Import MapWidthEval.

Lemma foldl_max_ge (l : list Z) (a : Z) :
  a ≤ foldl Z.max a l ∧ (∀ c, c ∈ l → c ≤ foldl Z.max a l).
Proof.
  revert a. induction l as [|b l IH]; intros a; simpl.
  - split; [lia|]. intros c Hc. inversion Hc.
  - destruct (IH (Z.max a b)) as [H1 H2]. split; [lia|].
    intros c Hc. apply elem_of_cons in Hc as [->|Hc]; [lia|auto].
Qed.

Lemma foldl_max_in (l : list Z) (a : Z) :
  foldl Z.max a l = a ∨ foldl Z.max a l ∈ l.
Proof.
  revert a. induction l as [|b l IH]; intros a; simpl; [by left|].
  destruct (IH (Z.max a b)) as [H|H].
  - rewrite H. destruct (Z.max_spec a b) as [[_ ->]|[_ ->]].
    + right. apply elem_of_cons. by left.
    + by left.
  - right. apply elem_of_cons. by right.
Qed.

(** [max] returns the greatest element of a list that has one. *)
Lemma py_max_spec (l : list Z) (m : Z) :
  py_max l = Ok m ↔ m ∈ l ∧ ∀ c, c ∈ l → c ≤ m.
Proof.
  destruct l as [|a l]; simpl.
  - split; [discriminate|]. intros [H _]. inversion H.
  - pose proof (foldl_max_ge l a) as [Ha Hl].
    pose proof (foldl_max_in l a) as Hin.
    split.
    + intros [= <-]. split.
      * apply elem_of_cons. destruct Hin as [->|Hin]; auto.
      * intros c Hc. apply elem_of_cons in Hc as [->|Hc]; auto.
    + intros [Hm Hub]. f_equal.
      assert (foldl Z.max a l ∈ a :: l) as Hf.
      { apply elem_of_cons. destruct Hin as [->|Hin]; auto. }
      apply Hub in Hf.
      apply elem_of_cons in Hm as [->|Hm]; [lia|]. apply Hl in Hm. lia.
Qed.

(** The inner loop adds [x] when, and only when, some row holds the node. *)
Lemma scan_y_spec CGRA v x ys acc c :
  c ∈ scan_y CGRA v x ys acc ↔
  c ∈ acc ∨ (c = x ∧ ∃ y, y ∈ ys ∧ in_PE CGRA v x y = true).
Proof.
  induction ys as [|y ys IH]; simpl.
  - split; [auto|]. intros [H|[_ (y & Hy & _)]]; [done|inversion Hy].
  - destruct (in_PE CGRA v x y) eqn:E.
    + rewrite elem_of_app, list_elem_of_singleton. split.
      * intros [H|H]; [by left|]. right. split; [done|].
        exists y. split; [apply elem_of_cons; by left|done].
      * intros [H|[H _]]; auto.
    + rewrite IH. split.
      * intros [H|[H (y' & Hy' & Hp)]]; [by left|]. right. split; [done|].
        exists y'. split; [apply elem_of_cons; by right|done].
      * intros [H|[H (y' & Hy' & Hp)]]; [by left|]. right. split; [done|].
        exists y'. split; [|done].
        apply elem_of_cons in Hy' as [->|Hy']; [congruence|done].
Qed.

Lemma scan_x_spec CGRA v xs h acc c :
  c ∈ scan_x CGRA v xs h acc ↔
  c ∈ acc ∨ (c ∈ xs ∧ ∃ y, y ∈ range h ∧ in_PE CGRA v c y = true).
Proof.
  revert acc. induction xs as [|x xs IH]; intros acc; simpl.
  - split; [auto|]. intros [H|[H _]]; [done|inversion H].
  - rewrite IH, scan_y_spec. rewrite elem_of_cons. split.
    + intros [[H|[-> H]]|[H1 H2]]; auto.
    + intros [H|[[->|H1] H2]]; auto.
Qed.

Lemma scan_nodes_spec CGRA ns w h acc c :
  c ∈ scan_nodes CGRA ns w h acc ↔
  c ∈ acc ∨ ∃ v, v ∈ ns ∧ c ∈ range w ∧
                 ∃ y, y ∈ range h ∧ in_PE CGRA v c y = true.
Proof.
  revert acc. induction ns as [|n ns IH]; intros acc; simpl.
  - split; [auto|]. intros [H|(v & H & _)]; [done|inversion H].
  - rewrite IH, scan_x_spec. split.
    + intros [[H|[H1 H2]]|(v & Hv & H)]; auto.
      * right. exists n. split; [apply elem_of_cons; by left|done].
      * right. exists v. split; [apply elem_of_cons; by right|done].
    + intros [H|(v & Hv & H)]; auto.
      apply elem_of_cons in Hv as [->|Hv]; [left; right; done|].
      right. exists v. done.
Qed.

Lemma elem_of_range (n k : Z) : k ∈ range n ↔ 0 ≤ k < n.
Proof. unfold range. rewrite elem_of_seqZ. lia. Qed.

(** The collected coordinates are the occupied columns. *)
Lemma x_coords_spec CGRA ind c :
  c ∈ x_coords_of CGRA ind ↔ column_occupied CGRA ind c.
Proof.
  unfold x_coords_of, column_occupied, used_node.
  destruct (getSize CGRA) as [w h]; simpl.
  rewrite scan_nodes_spec. split.
  - intros [H|(v & Hv & Hc & y & Hy & Hp)]; [inversion H|].
    exists v, y. apply elem_of_range in Hc, Hy.
    rewrite elem_of_app, !list_elem_of_filter in Hv.
    repeat split; try lia; try done; tauto.
  - intros (v & y & [Hv Hk] & Hc & Hy & Hp). right.
    exists v. rewrite elem_of_app, !list_elem_of_filter.
    split; [tauto|]. split; [by apply elem_of_range|].
    exists y. split; [by apply elem_of_range|done].
Qed.

(** The list built from the "SE" entry of a PE holds the nodes of its
    sets. *)
Lemma SE_nodes_spec (rsc : PEResources) (v : Node) :
  v ∈ SE_nodes rsc ↔
  ∃ key se_set, rsc_SE rsc !! key = Some se_set ∧ v ∈ se_set.
Proof.
  unfold SE_nodes. rewrite list_elem_of_join. split.
  - intros (l & Hv & Hl).
    apply list_elem_of_fmap in Hl as (se_set & -> & Hs).
    apply list_elem_of_fmap in Hs as ([key se_set'] & -> & Hs).
    apply elem_of_map_to_list in Hs. simpl in *.
    exists key, se_set'. split; [exact Hs|].
    by apply elem_of_elements.
  - intros (key & se_set & Hk & Hv).
    exists (elements se_set). split; [by apply elem_of_elements|].
    apply list_elem_of_fmap. exists se_set. split; [reflexivity|].
    apply list_elem_of_fmap. exists (key, se_set). split; [reflexivity|].
    by apply elem_of_map_to_list.
Qed.

(** The test of the innermost [if] holds exactly for the nodes among the
    resources of the PE. *)
Lemma in_PE_spec CGRA v x y :
  in_PE CGRA v x y = true ↔ in_resources (get_PE_resources CGRA (x, y)) v.
Proof.
  unfold in_PE, in_resources. cbv zeta.
  rewrite orb_true_iff, !bool_decide_eq_true, SE_nodes_spec. reflexivity.
Qed.

Lemma column_occupied_used CGRA ind c :
  column_occupied CGRA ind c ↔ column_used CGRA ind c.
Proof.
  unfold column_occupied, column_used, used_node. split.
  - intros (v & y & [Hv Hk] & Hc & Hy & Hp). exists v, y.
    apply in_PE_spec in Hp. tauto.
  - intros (v & y & Hv & Hk & Hc & Hy & Hp). exists v, y.
    apply in_PE_spec in Hp. tauto.
Qed.

Lemma rightmost_column_used CGRA ind c :
  rightmost_column CGRA ind c ↔ rightmost_used_column CGRA ind c.
Proof.
  unfold rightmost_column, rightmost_used_column.
  rewrite column_occupied_used. split.
  - intros [H1 H2]. split; [exact H1|]. intros c' Hc'.
    apply H2. by apply column_occupied_used.
  - intros [H1 H2]. split; [exact H1|]. intros c' Hc'.
    apply H2. by apply column_occupied_used.
Qed.

(** The value returned is one more than the largest collected coordinate. *)
Lemma eval_rightmost CGRA app sim_params ind w ind' :
  MapWidthEval.eval CGRA app sim_params ind = Ok (w, ind') ↔
  rightmost_column CGRA ind (w - 1) ∧
  ind' = saveEvaluatedData "map_width" w ind.
Proof.
  unfold MapWidthEval.eval, rightmost_column.
  destruct (py_max (MapWidthEval.x_coords_of CGRA ind)) as [m|e] eqn:E; simpl.
  - apply py_max_spec in E as [Hin Hub]. split.
    + intros [= <- <-]. replace (m + 1 - 1) with m by lia.
      split; [|done]. split; [by apply x_coords_spec|].
      intros c' Hc'. apply Hub. by apply x_coords_spec.
    + intros [[Hocc Hmax] ->].
      apply x_coords_spec in Hocc. apply x_coords_spec in Hin.
      apply Hub in Hocc. apply Hmax in Hin.
      assert (w = m + 1) as -> by lia. reflexivity.
  - split; [discriminate|]. intros [[Hocc _] _]. exfalso.
    apply x_coords_spec in Hocc.
    destruct (MapWidthEval.x_coords_of CGRA ind); [inversion Hocc|discriminate].
Qed.

End MapWidthEvalFacts.

(** C9. [MapWidthEval.eval] returns [w] exactly when column [w - 1] is the
    rightmost column of the grid in which a PE has, among the resources
    that the architecture model gives for it (a member of one of the sets of
    its "SE" entry, or its ALU), an SE or ALU node of the candidate's routed
    graph; the value is saved in the candidate under "map_width". The
    objective is to be minimized. *)
Theorem mapwidth_eval_rightmost_plus_one
    (CGRA : PEArrayModel) (app : Application) (sim_params : SimParameters)
    (ind : Individual) (w : Z) (ind' : Individual) :
  (MapWidthEval.eval CGRA app sim_params ind = Ok (w, ind') ↔
     rightmost_used_column CGRA ind (w - 1) ∧
     ind' = saveEvaluatedData "map_width" w ind) ∧
  MapWidthEval.isMinimize = true.
Proof.
  split; [|reflexivity].
  rewrite eval_rightmost, rightmost_column_used. reflexivity.
Qed.

(** A candidate whose only SE lies in column 0 of the 2 x 2 array has
    width 1: column 0 is used, through the "SE" entry of the PE at (0, 1),
    and column 1 is not. *)
Lemma mapwidth_eval_rightmost_plus_one_witness :
  rightmost_used_column Demo.CGRA Demo.narrow (1 - 1) ∧
  ¬ column_used Demo.CGRA Demo.narrow 1.
Proof.
  pose proof (mapwidth_eval_rightmost_plus_one Demo.CGRA Demo.app ∅
                Demo.narrow 1 (saveEvaluatedData "map_width" 1 Demo.narrow))
    as [[H _] _].
  assert (rightmost_used_column Demo.CGRA Demo.narrow (1 - 1)) as Hr.
  { apply H. vm_compute. reflexivity. }
  split; [exact Hr|]. intros Hc. apply Hr in Hc. lia.
Defined.

(** C10. When no node of the routed graph is an SE or an ALU,
    [MapWidthEval.eval] raises the exception of [max] on an empty sequence.
    It returns a number if and only if some column of the grid is occupied,
    and raises that exception otherwise. *)
Theorem mapwidth_eval_raises_on_empty
    (CGRA : PEArrayModel) (app : Application) (sim_params : SimParameters)
    (ind : Individual) :
  ((∀ v, v ∈ nodes (routed_graph ind) →
         isSE CGRA v = false ∧ isALU CGRA v = false) →
   MapWidthEval.eval CGRA app sim_params ind =
   Raise (ValueError "max() arg is an empty sequence")) ∧
  (is_Ok (MapWidthEval.eval CGRA app sim_params ind) ↔
   ∃ c, column_occupied CGRA ind c) ∧
  (MapWidthEval.eval CGRA app sim_params ind =
   Raise (ValueError "max() arg is an empty sequence") ↔
   ¬ ∃ c, column_occupied CGRA ind c).
Proof.
  assert (MapWidthEval.x_coords_of CGRA ind = [] ↔
          ¬ ∃ c, column_occupied CGRA ind c) as Hempty.
  { split.
    - intros E [c Hc]. apply x_coords_spec in Hc. rewrite E in Hc.
      inversion Hc.
    - intros Hno. destruct (MapWidthEval.x_coords_of CGRA ind) as [|c l] eqn:E;
        [done|].
      exfalso. apply Hno. exists c. apply x_coords_spec. rewrite E.
      apply elem_of_cons. by left. }
  assert (MapWidthEval.eval CGRA app sim_params ind =
          Raise (ValueError "max() arg is an empty sequence") ↔
          MapWidthEval.x_coords_of CGRA ind = []) as Hraise.
  { unfold MapWidthEval.eval.
    destruct (MapWidthEval.x_coords_of CGRA ind); simpl; split; done. }
  split; [|split].
  - intros Hnone. apply Hraise, Hempty. intros (c & v & y & [Hv Hk] & _).
    destruct (Hnone v Hv) as [H1 H2]. destruct Hk; congruence.
  - split.
    + intros [a Ha]. destruct (MapWidthEval.x_coords_of CGRA ind) as [|c l] eqn:E.
      * unfold MapWidthEval.eval in Ha. rewrite E in Ha. discriminate.
      * exists c. apply x_coords_spec. rewrite E. apply elem_of_cons. by left.
    + intros Hex. unfold MapWidthEval.eval.
      destruct (MapWidthEval.x_coords_of CGRA ind) as [|c l] eqn:E.
      * exfalso. by apply Hempty.
      * simpl. eexists. reflexivity.
  - rewrite Hraise. apply Hempty.
Qed.

(** A candidate whose routed graph holds an operation and an input only. *)
Lemma mapwidth_eval_raises_on_empty_witness :
  MapWidthEval.eval Demo.CGRA Demo.app ∅ Demo.blank =
  Raise (ValueError "max() arg is an empty sequence").
Proof.
  destruct (mapwidth_eval_raises_on_empty Demo.CGRA Demo.app ∅ Demo.blank)
    as [H _].
  apply H. intros v Hv. vm_compute in Hv.
  apply elem_of_cons in Hv as [->|Hv]; [split; reflexivity|].
  apply elem_of_cons in Hv as [->|Hv]; [split; reflexivity|].
  inversion Hv.
Defined.

(** ** Properties of the routing pipeline *)

Ltac run_eff :=
  unfold NSGA2.doRouting, mbind, mret, Eff_bind, Eff_ret, get_isValid,
    call_get_penalty_cost, call_stage, put_routing_cost, call_clean_graph,
    call_validate, logged; simpl.

Ltac unfold_stages :=
  unfold within_penalty, first_excess, full_routing_calls,
    total4, total3, total2, total1,
    after_output, after_input, after_const, after_comp in *.

Section RoutingFacts.

Variable CGRA : PEArrayModel.
Variable app : Application.
Variable router : RouterBase.

Local Abbreviation P := (get_penalty_cost router).

(** A candidate that is already valid is left as it is. *)
Lemma doRouting_skip (m : Machine) :
  isValid (cand m) = true → NSGA2.doRouting CGRA app router m = Ok (tt, m).
Proof. intros Hv. run_eff. by rewrite Hv. Qed.

(** The pipeline stops after the computation stage. *)
Lemma doRouting_stop1 (m : Machine) :
  isValid (cand m) = false →
  total1 CGRA app router (cand m) > P →
  NSGA2.doRouting CGRA app router m =
  Ok (tt,
      {| cand := set_routing_cost (total1 CGRA app router (cand m) + P)
                   (set_routed_graph (after_comp CGRA app router (cand m)).2
                      (cand m));
         calls := calls m ++ [Call_get_penalty_cost; Call_comp_routing] |}).
Proof.
  intros Hv H1. run_eff. rewrite Hv. unfold_stages.
  destruct (comp_routing _ _ _ _ _) as [c1 g1]; simpl in *.
  rewrite bool_decide_eq_true_2 by done. by rewrite <- app_assoc.
Qed.

(** The pipeline stops after the constant stage. *)
Lemma doRouting_stop2 (m : Machine) :
  isValid (cand m) = false →
  total1 CGRA app router (cand m) ≤ P →
  total2 CGRA app router (cand m) > P →
  NSGA2.doRouting CGRA app router m =
  Ok (tt,
      {| cand := set_routing_cost (total2 CGRA app router (cand m) + P)
                   (set_routed_graph (after_const CGRA app router (cand m)).2
                      (cand m));
         calls := calls m ++ [Call_get_penalty_cost; Call_comp_routing;
                              Call_const_routing] |}).
Proof.
  intros Hv H1 H2. run_eff. rewrite Hv. unfold_stages.
  destruct (comp_routing _ _ _ _ _) as [c1 g1]; simpl in *.
  rewrite bool_decide_eq_false_2 by lia.
  destruct (const_routing _ _ _ _ _) as [c2 g2]; simpl in *.
  rewrite bool_decide_eq_true_2 by done. by rewrite <- !app_assoc.
Qed.

(** The pipeline stops after the input stage. *)
Lemma doRouting_stop3 (m : Machine) :
  isValid (cand m) = false →
  total1 CGRA app router (cand m) ≤ P →
  total2 CGRA app router (cand m) ≤ P →
  total3 CGRA app router (cand m) > P →
  NSGA2.doRouting CGRA app router m =
  Ok (tt,
      {| cand := set_routing_cost (total3 CGRA app router (cand m) + P)
                   (set_routed_graph (after_input CGRA app router (cand m)).2
                      (cand m));
         calls := calls m ++ [Call_get_penalty_cost; Call_comp_routing;
                              Call_const_routing; Call_input_routing] |}).
Proof.
  intros Hv H1 H2 H3. run_eff. rewrite Hv. unfold_stages.
  destruct (comp_routing _ _ _ _ _) as [c1 g1]; simpl in *.
  rewrite bool_decide_eq_false_2 by lia.
  destruct (const_routing _ _ _ _ _) as [c2 g2]; simpl in *.
  rewrite bool_decide_eq_false_2 by lia.
  destruct (input_routing _ _ _ _ _) as [c3 g3]; simpl in *.
  rewrite bool_decide_eq_true_2 by done. by rewrite <- !app_assoc.
Qed.

(** The output stage runs and the total exceeds the penalty. *)
Lemma doRouting_stop4 (m : Machine) :
  isValid (cand m) = false →
  total1 CGRA app router (cand m) ≤ P →
  total2 CGRA app router (cand m) ≤ P →
  total3 CGRA app router (cand m) ≤ P →
  total4 CGRA app router (cand m) > P →
  NSGA2.doRouting CGRA app router m =
  Ok (tt,
      {| cand := set_routing_cost (total4 CGRA app router (cand m) + P)
                   (set_routed_graph (after_output CGRA app router (cand m)).2
                      (cand m));
         calls := calls m ++
                  [Call_get_penalty_cost; Call_comp_routing;
                   Call_const_routing; Call_input_routing;
                   Call_output_routing
                     (bool_decide (getPregNumber CGRA > 0))] |}).
Proof.
  intros Hv H1 H2 H3 H4. run_eff. rewrite Hv. unfold_stages.
  destruct (comp_routing _ _ _ _ _) as [c1 g1]; simpl in *.
  rewrite bool_decide_eq_false_2 by lia.
  destruct (const_routing _ _ _ _ _) as [c2 g2]; simpl in *.
  rewrite bool_decide_eq_false_2 by lia.
  destruct (input_routing _ _ _ _ _) as [c3 g3]; simpl in *.
  rewrite bool_decide_eq_false_2 by lia.
  destruct (bool_decide (getPregNumber CGRA > 0)); simpl in *;
    destruct (output_routing _ _ _ _ _ _) as [c4 g4]; simpl in *;
    rewrite bool_decide_eq_true_2 by done; by rewrite <- !app_assoc.
Qed.

(** All four boundaries are passed. *)
Lemma doRouting_pass (m : Machine) :
  isValid (cand m) = false →
  within_penalty CGRA app router (cand m) →
  NSGA2.doRouting CGRA app router m =
  Ok (tt,
      {| cand :=
           validate
             (set_routed_graph
                (clean_graph router (after_output CGRA app router (cand m)).2)
                (set_routing_cost (total4 CGRA app router (cand m))
                   (set_routed_graph
                      (after_output CGRA app router (cand m)).2 (cand m))));
         calls := calls m ++ full_routing_calls CGRA app router (cand m) |}).
Proof.
  intros Hv (H1 & H2 & H3 & H4). run_eff. rewrite Hv. unfold_stages.
  destruct (comp_routing _ _ _ _ _) as [c1 g1]; simpl in *.
  rewrite bool_decide_eq_false_2 by lia.
  destruct (const_routing _ _ _ _ _) as [c2 g2]; simpl in *.
  rewrite bool_decide_eq_false_2 by lia.
  destruct (input_routing _ _ _ _ _) as [c3 g3]; simpl in *.
  rewrite bool_decide_eq_false_2 by lia.
  destruct (bool_decide (getPregNumber CGRA > 0)); simpl in *;
    destruct (output_routing _ _ _ _ _ _) as [c4 g4]; simpl in *;
    rewrite bool_decide_eq_false_2 by lia;
    repeat (simpl; rewrite <- app_assoc); reflexivity.
Qed.

(** The objectives are all evaluated, in registered order. *)
Lemma eval_each_calls (sim_params : SimParameters)
    (l : list (EvalBase * EvalArgs)) (m m' : Machine) (fit : list Z) :
  NSGA2.eval_each CGRA app sim_params l m = Ok (fit, m') →
  calls m' = calls m ++ ((fun p => Call_eval (name p.1)) <$> l) ∧
  length fit = length l.
Proof.
  revert m m' fit. induction l as [|[cls args] l IH]; intros m m' fit; simpl.
  - intros [= <- <-]. by rewrite app_nil_r.
  - unfold mbind, Eff_bind, call_eval.
    destruct (eval cls CGRA app sim_params (cand m) args) as [[v ind]|e];
      [|discriminate].
    destruct (NSGA2.eval_each CGRA app sim_params l _) as [[vs m1]|e] eqn:E;
      [|discriminate].
    intros [= <- <-]. apply IH in E as [Hc Hl]. simpl in *.
    rewrite Hc, Hl. split; [|done]. by rewrite <- app_assoc.
Qed.

End RoutingFacts.

(** C4. For a candidate that is not yet valid, the routing ends with the
    candidate valid exactly when the running total is at most the penalty at
    each of the four stage boundaries. Then the routing cost is the total of
    the four stages, the router's cleanup has been called on the routing
    graph that the output stage left, and [validate] has been called.
    Otherwise the routing cost is the running total at the first boundary
    that fails, plus the penalty, and the candidate is still invalid. *)
Theorem doRouting_valid_iff_within_penalty
    (CGRA : PEArrayModel) (app : Application) (router : RouterBase)
    (m : Machine) :
  isValid (cand m) = false →
  ∃ m', NSGA2.doRouting CGRA app router m = Ok (tt, m') ∧
    (isValid (cand m') = true ↔ within_penalty CGRA app router (cand m)) ∧
    (within_penalty CGRA app router (cand m) →
       routing_cost (cand m') = total4 CGRA app router (cand m) ∧
       calls m' = calls m ++ full_routing_calls CGRA app router (cand m) ∧
       routed_graph (cand m') =
         clean_graph router (after_output CGRA app router (cand m)).2) ∧
    (¬ within_penalty CGRA app router (cand m) →
       routing_cost (cand m') =
         first_excess CGRA app router (cand m) + get_penalty_cost router ∧
       isValid (cand m') = false).
Proof.
  intros Hv.
  destruct (decide (total1 CGRA app router (cand m) > get_penalty_cost router))
    as [H1|H1].
  { eexists. split; [by apply doRouting_stop1|]. simpl.
    unfold isValid in *. simpl. rewrite Hv.
    unfold within_penalty, first_excess; cbv zeta.
    rewrite (bool_decide_eq_true_2 _ H1).
    repeat split; try done; try (intros; simpl in *; lia). }
  destruct (decide (total2 CGRA app router (cand m) > get_penalty_cost router))
    as [H2|H2].
  { eexists. split; [apply doRouting_stop2; [done|lia|done]|]. simpl.
    unfold isValid in *. simpl. rewrite Hv.
    unfold within_penalty, first_excess; cbv zeta.
    rewrite (bool_decide_eq_false_2 _ H1), (bool_decide_eq_true_2 _ H2).
    repeat split; try done; try (intros; simpl in *; lia). }
  destruct (decide (total3 CGRA app router (cand m) > get_penalty_cost router))
    as [H3|H3].
  { eexists. split; [apply doRouting_stop3; [done|lia|lia|done]|]. simpl.
    unfold isValid in *. simpl. rewrite Hv.
    unfold within_penalty, first_excess; cbv zeta.
    rewrite (bool_decide_eq_false_2 _ H1), (bool_decide_eq_false_2 _ H2),
      (bool_decide_eq_true_2 _ H3).
    repeat split; try done; try (intros; simpl in *; lia). }
  destruct (decide (total4 CGRA app router (cand m) > get_penalty_cost router))
    as [H4|H4].
  { eexists. split; [apply doRouting_stop4; [done|lia|lia|lia|done]|]. simpl.
    unfold isValid in *. simpl. rewrite Hv.
    unfold within_penalty, first_excess; cbv zeta.
    rewrite (bool_decide_eq_false_2 _ H1), (bool_decide_eq_false_2 _ H2),
      (bool_decide_eq_false_2 _ H3).
    repeat split; try done; try (intros; simpl in *; lia). }
  assert (within_penalty CGRA app router (cand m)) as Hw.
  { unfold within_penalty. simpl. lia. }
  eexists. split; [by apply doRouting_pass|]. simpl.
  repeat split; try done; intros Hn; by destruct Hn.
Qed.

(** Stage costs 1, 2, 3 and 4 under a penalty of 100. *)
Lemma doRouting_valid_iff_within_penalty_witness :
  ∃ m', NSGA2.doRouting Demo.CGRA Demo.app (Demo.fixed_router 100 1 2 3 4)
          {| cand := Demo.wide; calls := [] |} = Ok (tt, m') ∧
        isValid (cand m') = true ∧ routing_cost (cand m') = 10.
Proof.
  destruct (doRouting_valid_iff_within_penalty Demo.CGRA Demo.app
              (Demo.fixed_router 100 1 2 3 4)
              {| cand := Demo.wide; calls := [] |})
    as (m' & Hrun & Hiff & Hpass & _); [reflexivity|].
  assert (within_penalty Demo.CGRA Demo.app (Demo.fixed_router 100 1 2 3 4)
            Demo.wide) as Hw.
  { vm_compute. repeat split; discriminate. }
  exists m'. split; [exact Hrun|]. split; [by apply Hiff|].
  by destruct (Hpass Hw) as [-> _].
Defined.

(** C5. When the cost of the computation stage alone exceeds the penalty,
    the only router methods called are [get_penalty_cost] and
    [comp_routing]: the constant, input and output stages are not run. The
    routing cost is the computation cost plus the penalty, and the candidate
    stays invalid. *)
Theorem doRouting_comp_cost_over_penalty
    (CGRA : PEArrayModel) (app : Application) (router : RouterBase)
    (m : Machine) :
  isValid (cand m) = false →
  (after_comp CGRA app router (cand m)).1 > get_penalty_cost router →
  ∃ m', NSGA2.doRouting CGRA app router m = Ok (tt, m') ∧
    calls m' = calls m ++ [Call_get_penalty_cost; Call_comp_routing] ∧
    routing_cost (cand m') =
      (after_comp CGRA app router (cand m)).1 + get_penalty_cost router ∧
    isValid (cand m') = false.
Proof.
  intros Hv H1. eexists. split; [by apply doRouting_stop1|].
  simpl. repeat split. exact Hv.
Qed.

(** A computation cost of 7 under a penalty of 5. *)
Lemma doRouting_comp_cost_over_penalty_witness :
  ∃ m', NSGA2.doRouting Demo.CGRA Demo.app (Demo.fixed_router 5 7 0 0 0)
          {| cand := Demo.narrow; calls := [] |} = Ok (tt, m') ∧
    calls m' = [] ++ [Call_get_penalty_cost; Call_comp_routing] ∧
    routing_cost (cand m') = 7 + 5 ∧
    isValid (cand m') = false.
Proof.
  apply (doRouting_comp_cost_over_penalty Demo.CGRA Demo.app
           (Demo.fixed_router 5 7 0 0 0)
           {| cand := Demo.narrow; calls := [] |}).
  - reflexivity.
  - vm_compute. reflexivity.
Defined.




(** ** Properties of the reference point and of quality tracking *)

(** What [set_ref_point] does when quality tracking is enabled: a vector
    of the wrong length is refused and the object is unchanged; a vector of
    the right length is stored as it is. *)
Lemma set_ref_point_enabled (self : NSGA2.t) (ref_point : list Q) :
  NSGA2.hv_logging self = true →
  (length ref_point ≠ length (NSGA2.eval_list self) →
     NSGA2.returned (NSGA2.set_ref_point self ref_point) = false ∧
     NSGA2.self_after (NSGA2.set_ref_point self ref_point) = self) ∧
  (length ref_point = length (NSGA2.eval_list self) →
     NSGA2.returned (NSGA2.set_ref_point self ref_point) = true ∧
     NSGA2.hv_refpoint (NSGA2.self_after (NSGA2.set_ref_point self ref_point))
     = Some ref_point).
Proof.
  intros Hon. unfold NSGA2.set_ref_point. rewrite Hon. simpl.
  split; intros Hlen; repeat case_bool_decide; simpl; try done; lia.
Qed.

(** The message tells the direction of the mismatch the wrong way round. *)
Lemma set_ref_point_message (self : NSGA2.t) (ref_point : list Q) :
  NSGA2.hv_logging self = true →
  ((length ref_point > length (NSGA2.eval_list self))%nat →
     NSGA2.printed (NSGA2.set_ref_point self ref_point) =
     ["Too few of ref point values"]) ∧
  ((length ref_point < length (NSGA2.eval_list self))%nat →
     NSGA2.printed (NSGA2.set_ref_point self ref_point) =
     ["Too much of ref point values"]).
Proof.
  intros Hon. unfold NSGA2.set_ref_point. rewrite Hon. simpl.
  split; intros Hlen; repeat case_bool_decide; simpl; try done; lia.
Qed.

(** C1, on the code. With two objectives and quality tracking enabled, a
    reference point of three values is refused and the stored reference
    point is unchanged, but the message printed is "Too few of ref point
    values", although the vector has too many values. *)
Theorem set_ref_point_reports_wrong_direction :
  let ref_point := [1%Q; 2%Q; 3%Q] in
  NSGA2.hv_logging Demo.engine = true ∧
  length (NSGA2.eval_list Demo.engine) = 2%nat ∧
  length ref_point = 3%nat ∧
  NSGA2.returned (NSGA2.set_ref_point Demo.engine ref_point) = false ∧
  NSGA2.self_after (NSGA2.set_ref_point Demo.engine ref_point) = Demo.engine ∧
  NSGA2.printed (NSGA2.set_ref_point Demo.engine ref_point) =
    ["Too few of ref point values"].
Proof. repeat split. Qed.

(** [set_ref_point] never changes the flag of quality tracking nor the
    objectives. *)
Lemma set_ref_point_keeps_flag (self : NSGA2.t) (ref_point : list Q) :
  NSGA2.hv_logging (NSGA2.self_after (NSGA2.set_ref_point self ref_point)) =
    NSGA2.hv_logging self ∧
  NSGA2.eval_list (NSGA2.self_after (NSGA2.set_ref_point self ref_point)) =
    NSGA2.eval_list self.
Proof.
  unfold NSGA2.set_ref_point.
  destruct (NSGA2.hv_logging self) eqn:E; simpl;
    repeat case_bool_decide; simpl; by rewrite ?E.
Qed.

Lemma set_ref_points_keeps_flag (ref_points : list (list Q)) (self : NSGA2.t) :
  NSGA2.hv_logging (set_ref_points self ref_points) = NSGA2.hv_logging self ∧
  NSGA2.eval_list (set_ref_points self ref_points) = NSGA2.eval_list self.
Proof.
  revert self. unfold set_ref_points.
  induction ref_points as [|rp l IH]; intros self; simpl; [done|].
  destruct (IH (NSGA2.self_after (NSGA2.set_ref_point self rp))) as [-> ->].
  apply set_ref_point_keeps_flag.
Qed.

(** [setup] clears the flag when there is one objective, and never sets
    it. *)
Lemma setup_flag (self : NSGA2.t) (init_maps : list Mapping) :
  NSGA2.hv_logging (NSGA2.setup self init_maps).2 =
    (if bool_decide (length (NSGA2.eval_list self) = 1%nat) then false
     else NSGA2.hv_logging self) ∧
  NSGA2.eval_list (NSGA2.setup self init_maps).2 = NSGA2.eval_list self.
Proof.
  unfold NSGA2.setup. repeat case_bool_decide; done.
Qed.

(** ** Properties of the generational loop *)

Section LoopFacts.

Import NSGA2.

Variable CGRA : PEArrayModel.
Variable app : Application.
Variable sim_params : SimParameters.
Variable tb : Toolbox.

Lemma init_repeat_length {A : Type} (f : Rng → A * Rng) (n : nat) (r : Rng) :
  length (init_repeat f n r).1 = n.
Proof.
  revert r. induction n as [|n IH]; intros r; simpl; [done|].
  destruct (f r) as [a r1]. specialize (IH r1).
  destruct (init_repeat f n r1) as [l r2]. simpl in *. by rewrite IH.
Qed.

Lemma random_population_length (n : Z) (r : Rng) :
  length (random_population tb n r).1 = Z.to_nat n.
Proof.
  unfold random_population. destruct (make_random_mappings tb r) as [ms r1].
  apply init_repeat_length.
Qed.

Lemma toolbox_map_length {A B : Type} (f : A → result B) (l : list A)
    (l' : list B) :
  toolbox_map f l = Ok l' → length l' = length l.
Proof.
  revert l'. induction l as [|a l IH]; intros l'; simpl.
  - by intros [= <-].
  - unfold mbind, result_bind. destruct (f a) as [b|e]; [|discriminate].
    destruct (toolbox_map f l) as [bs|e]; [|discriminate].
    intros [= <-]. simpl. by rewrite (IH bs).
Qed.

(** A batch that was evaluated has the size it had, and is not empty. *)
Lemma evaluate_all_length (self : t) (inds inds' : list Individual) :
  evaluate_all CGRA app sim_params self inds = Ok inds' →
  length inds' = length inds ∧ (0 < length inds)%nat.
Proof.
  unfold evaluate_all, mbind, result_bind.
  destruct (toolbox_map _ inds) as [rs|e] eqn:E; [|discriminate].
  apply toolbox_map_length in E.
  destruct rs as [|p rs]; simpl; [discriminate|].
  intros [= <-]. simpl in *.
  rewrite length_zip_with, !length_fmap. lia.
Qed.

(** One iteration of the loop, field by field. *)
Lemma generation_inv (st st' : LoopState) :
  generation CGRA app sim_params tb st = Ok st' →
  ∃ offspring' rnd',
    let self := obj st in
    let prm := params self in
    let vo := varOr tb (pop self) (Offspring_size prm)
                (Crossover_probability prm) (Mutation_probability prm)
                (rng st) in
    let pop1 := select tb (pop self ++ offspring') (Select_size prm) in
    evaluate_all CGRA app sim_params self vo.1 = Ok offspring' ∧
    evaluate_all CGRA app sim_params self
      (random_population tb (Random_population_size prm) vo.2).1 = Ok rnd' ∧
    obj st' = set_pop (pop1 ++ rnd') self ∧
    hof st' = hof_update tb (hof st) pop1 ∧
    gen_count st' = gen_count st + 1 ∧
    stall_count st' = update_stall (hof st') (prev_hof st) (stall_count st) ∧
    prev_hof st' = hof st'.
Proof.
  unfold generation.
  destruct (varOr tb _ _ _ _ _) as [offspring r1]; simpl.
  unfold mbind, result_bind.
  destruct (evaluate_all _ _ _ _ offspring) as [offspring'|e]; [|discriminate].
  destruct (random_population tb _ r1) as [rnd r2]; simpl.
  destruct (evaluate_all _ _ _ _ rnd) as [rnd'|e]; [|discriminate].
  destruct (stats_compile _); [|discriminate].
  intros [= <-]. exists offspring', rnd'. simpl. done.
Qed.

(** The counter either grows by one or falls back to zero. *)
Lemma update_stall_cases (hof prev_hof : list Individual) (stall_count : Z) :
  (length hof = length prev_hof ∧ fitness_set hof = fitness_set prev_hof ∧
   update_stall hof prev_hof stall_count = stall_count + 1) ∨
  (¬ (length hof = length prev_hof ∧ fitness_set hof = fitness_set prev_hof) ∧
   update_stall hof prev_hof stall_count = 0).
Proof.
  unfold update_stall. repeat case_bool_decide; [left|right|right]; tauto.
Qed.

(** Archives without two members of equal fitness have as many members as
    fitness vectors. *)
Lemma fitness_set_size (hof : list Individual) :
  NoDup (fitness_values <$> hof) → size (fitness_set hof) = length hof.
Proof.
  intros Hnd. unfold fitness_set.
  rewrite size_list_to_set by done. apply length_fmap.
Qed.

End LoopFacts.

Section LoopTheorems.

Import NSGA2.

(** The loop keeps the configuration of the optimizer. *)
Lemma generation_keeps_config CGRA app sim_params tb (st st' : LoopState) :
  generation CGRA app sim_params tb st = Ok st' →
  params (obj st') = params (obj st) ∧
  hv_logging (obj st') = hv_logging (obj st).
Proof.
  intros H. apply generation_inv in H as (o & r & _ & _ & -> & _). done.
Qed.

(** With the counters within their bounds, as many units of fuel as there
    are generations left are enough; the loop then ends in a state where one
    of the counters is at its maximum. *)
Lemma while_loop_enough_fuel CGRA app sim_params tb (fuel : nat)
    (st : LoopState) :
  0 ≤ gen_count st ≤ Maximum_generation (params (obj st)) →
  0 ≤ stall_count st ≤ Maximum_stall (params (obj st)) →
  (Z.to_nat (Maximum_generation (params (obj st)) - gen_count st) ≤ fuel)%nat →
  ∃ out, while_loop CGRA app sim_params tb fuel st = Some out ∧
    ∀ st', out = Ok st' →
      reaches CGRA app sim_params tb st st' ∧
      params (obj st') = params (obj st) ∧
      0 ≤ gen_count st' ≤ Maximum_generation (params (obj st)) ∧
      0 ≤ stall_count st' ≤ Maximum_stall (params (obj st)) ∧
      (gen_count st' = Maximum_generation (params (obj st)) ∨
       stall_count st' = Maximum_stall (params (obj st))).
Proof.
  revert st. induction fuel as [|fuel IH]; intros st Hg Hs Hfuel.
  - simpl. unfold loop_cond.
    rewrite (bool_decide_eq_false_2 (gen_count st < _)) by lia. simpl.
    eexists. split; [reflexivity|]. intros st' [= <-].
    repeat split; try lia. constructor.
  - simpl. destruct (loop_cond st) eqn:Hc.
    + unfold loop_cond in Hc. apply andb_true_iff in Hc as [Hc1 Hc2].
      apply bool_decide_eq_true_1 in Hc1, Hc2.
      destruct (generation CGRA app sim_params tb st) as [st1|e] eqn:Hgen.
      * pose proof (generation_keeps_config _ _ _ _ _ _ Hgen) as [Hp _].
        pose proof Hgen as Hinv.
        apply generation_inv in Hinv
          as (o & r & _ & _ & _ & _ & Hgc & Hsc & _).
        assert (0 ≤ stall_count st1 ≤ stall_count st + 1) as Hs1.
        { rewrite Hsc.
          destruct (update_stall_cases (hof st1) (prev_hof st) (stall_count st))
            as [(_ & _ & ->)|[_ ->]]; lia. }
        destruct (IH st1) as (out & Hout & Hfin).
        { rewrite Hp, Hgc. lia. }
        { rewrite Hp. lia. }
        { rewrite Hp, Hgc. lia. }
        exists out. split; [exact Hout|]. intros st' ->.
        destruct (Hfin st' eq_refl) as (Hr & Hp' & Hg' & Hs' & Hend).
        rewrite Hp in Hp', Hg', Hs', Hend.
        repeat split; try lia; try done.
        by apply (reaches_step _ _ _ _ st st1 st').
      * eexists. split; [reflexivity|]. intros st' [=].
    + eexists. split; [reflexivity|]. intros st' [= <-].
      unfold loop_cond in Hc. apply andb_false_iff in Hc.
      assert (gen_count st = Maximum_generation (params (obj st)) ∨
              stall_count st = Maximum_stall (params (obj st))) as Hend.
      { destruct Hc as [Hc|Hc]; apply bool_decide_eq_false_1 in Hc;
          [left|right]; lia. }
      repeat split; try lia; try done. constructor.
Qed.

(** C7. Entered with both counters at zero, the loop terminates. When it
    ends normally it has run only iterations that began with both counters
    below their maxima, and it ends in the first state in which the
    generation counter equals the maximum generation or the stall counter
    equals the maximum stall; if the generation counter is then below its
    maximum, the stall counter equals the maximum stall. *)
Theorem while_loop_stops_at_first_limit
    (CGRA : PEArrayModel) (app : Application) (sim_params : SimParameters)
    (tb : Toolbox) (st0 : LoopState) :
  gen_count st0 = 0 →
  stall_count st0 = 0 →
  0 ≤ Maximum_generation (params (obj st0)) →
  0 ≤ Maximum_stall (params (obj st0)) →
  ∃ out,
    while_loop CGRA app sim_params tb
      (Z.to_nat (Maximum_generation (params (obj st0)))) st0 = Some out ∧
    ∀ st, out = Ok st →
      reaches CGRA app sim_params tb st0 st ∧
      loop_cond st = false ∧
      (gen_count st = Maximum_generation (params (obj st0)) ∨
       stall_count st = Maximum_stall (params (obj st0))) ∧
      (gen_count st < Maximum_generation (params (obj st0)) →
       stall_count st = Maximum_stall (params (obj st0))).
Proof.
  intros Hg Hs HG HS.
  destruct (while_loop_enough_fuel CGRA app sim_params tb
              (Z.to_nat (Maximum_generation (params (obj st0)))) st0)
    as (out & Hout & Hfin); [lia|lia|rewrite Hg; lia|].
  exists out. split; [exact Hout|]. intros st ->.
  destruct (Hfin st eq_refl) as (Hr & Hp & Hg' & Hs' & Hend).
  repeat split; try done.
  - unfold loop_cond. rewrite Hp. apply andb_false_iff.
    destruct Hend as [He|He]; [left|right];
      apply bool_decide_eq_false_2; lia.
  - intros Hlt. destruct Hend; [lia|done].
Qed.

(** Maximum generation 100 and maximum stall 3 on the 2 x 2 array. *)
Lemma while_loop_stops_at_first_limit_witness :
  ∃ out,
    while_loop Demo.CGRA Demo.app ∅ Demo.toolbox
      (Z.to_nat (Maximum_generation (params (obj Demo.state0)))) Demo.state0
    = Some out ∧
    ∀ st, out = Ok st →
      reaches Demo.CGRA Demo.app ∅ Demo.toolbox Demo.state0 st ∧
      loop_cond st = false ∧
      (gen_count st = Maximum_generation (params (obj Demo.state0)) ∨
       stall_count st = Maximum_stall (params (obj Demo.state0))) ∧
      (gen_count st < Maximum_generation (params (obj Demo.state0)) →
       stall_count st = Maximum_stall (params (obj Demo.state0))).
Proof.
  apply (while_loop_stops_at_first_limit Demo.CGRA Demo.app ∅ Demo.toolbox
           Demo.state0).
  - vm_compute. reflexivity.
  - vm_compute. reflexivity.
  - vm_compute. discriminate.
  - vm_compute. discriminate.
Defined.

(** That run ends after four generations, with the stall counter at 3. *)
Example while_loop_demo_run :
  match while_loop Demo.CGRA Demo.app ∅ Demo.toolbox 100 Demo.state0 with
  | Some (Ok st) => Some (gen_count st, stall_count st, length (pop (obj st)))
  | _ => None
  end = Some (4, 3, 6%nat).
Proof. vm_compute. reflexivity. Qed.

(** The first generations on the 2 x 2 array. *)
Lemma demo_initial_state :
  initial_state Demo.CGRA Demo.app ∅ Demo.toolbox Demo.engine 0%nat
  = Ok Demo.state0.
Proof. apply from_Ok_spec. vm_compute. reflexivity. Qed.


Lemma demo_generation_2 :
  generation Demo.CGRA Demo.app ∅ Demo.toolbox Demo.state1 = Ok Demo.state2.
Proof. apply from_Ok_spec. vm_compute. reflexivity. Qed.

(** C3, as the code has it. In every generation the stall counter grows by
    exactly one when the archive has as many members as the archive of the
    previous generation and the same set of fitness vectors; it is reset to
    zero when the number of members or the set differs. When neither archive
    has two members of equal fitness, the set alone decides. The archive is
    then remembered for the next generation. *)
Theorem stall_counter_update
    (CGRA : PEArrayModel) (app : Application) (sim_params : SimParameters)
    (tb : Toolbox) (st st' : LoopState) :
  generation CGRA app sim_params tb st = Ok st' →
  prev_hof st' = hof st' ∧
  (length (hof st') = length (prev_hof st) ∧
   fitness_set (hof st') = fitness_set (prev_hof st) →
   stall_count st' = stall_count st + 1) ∧
  (length (hof st') ≠ length (prev_hof st) ∨
   fitness_set (hof st') ≠ fitness_set (prev_hof st) →
   stall_count st' = 0) ∧
  (NoDup (fitness_values <$> hof st') →
   NoDup (fitness_values <$> prev_hof st) →
   (fitness_set (hof st') = fitness_set (prev_hof st) →
    stall_count st' = stall_count st + 1) ∧
   (fitness_set (hof st') ≠ fitness_set (prev_hof st) →
    stall_count st' = 0)).
Proof.
  intros Hgen.
  apply generation_inv in Hgen as (o & r & _ & _ & _ & _ & _ & Hsc & Hprev).
  split; [exact Hprev|]. rewrite Hsc.
  destruct (update_stall_cases (hof st') (prev_hof st) (stall_count st))
    as [(Hl & Hf & ->)|[Hn ->]].
  - repeat split; try done; intros; tauto.
  - split; [tauto|]. split; [done|]. intros Hnd Hnd'. split; [|done].
    intros Hf. exfalso. apply Hn. split; [|done].
    rewrite <- (fitness_set_size _ Hnd), <- (fitness_set_size _ Hnd').
    by rewrite Hf.
Qed.

(** The second generation on the 2 x 2 array leaves the archive as it
    was. *)
Lemma stall_counter_update_witness :
  stall_count Demo.state2 = stall_count Demo.state1 + 1.
Proof.
  destruct (stall_counter_update Demo.CGRA Demo.app ∅ Demo.toolbox
              Demo.state1 Demo.state2) as (_ & H & _).
  - exact demo_generation_2.
  - apply H. split; vm_compute; reflexivity.
Defined.

(** C3 fails as stated: with the archive [twin_a; twin_b] after the archive
    [twin_a], the two sets of fitness vectors are equal, and yet the counter
    is reset to zero, because the number of members differs. *)
Lemma stall_reset_with_equal_fitness_sets :
  fitness_set [Demo.twin_a; Demo.twin_b] = fitness_set [Demo.twin_a] ∧
  update_stall [Demo.twin_a; Demo.twin_b] [Demo.twin_a] 2 = 0 ∧
  update_stall [Demo.twin_a; Demo.twin_b] [Demo.twin_a] 2 ≠ 2 + 1.
Proof.
  assert (fitness_set [Demo.twin_a; Demo.twin_b] = fitness_set [Demo.twin_a])
    as Hf.
  { unfold fitness_set. simpl. set_solver. }
  split; [exact Hf|].
  assert (update_stall [Demo.twin_a; Demo.twin_b] [Demo.twin_a] 2 = 0) as Hu.
  { unfold update_stall. by rewrite bool_decide_eq_false_2 by (simpl; lia). }
  split; [exact Hu|]. rewrite Hu. discriminate.
Qed.


(** The loop never touches the flag of quality tracking. *)
Lemma while_loop_keeps_flag CGRA app sim_params tb (fuel : nat)
    (st st' : LoopState) :
  while_loop CGRA app sim_params tb fuel st = Some (Ok st') →
  hv_logging (obj st') = hv_logging (obj st).
Proof.
  revert st. induction fuel as [|fuel IH]; intros st; simpl.
  - destruct (loop_cond st); [discriminate|]. by intros [= <-].
  - destruct (loop_cond st); [|by intros [= <-]].
    destruct (generation CGRA app sim_params tb st) as [st1|e] eqn:Hgen;
      [|discriminate].
    intros H. apply IH in H. rewrite H.
    by apply generation_keeps_config in Hgen as [_ ->].
Qed.

Lemma initial_state_keeps_flag CGRA app sim_params tb (self : t) (r : Rng)
    (st0 : LoopState) :
  initial_state CGRA app sim_params tb self r = Ok st0 →
  hv_logging (obj st0) = hv_logging self.
Proof.
  unfold initial_state. destruct (population tb _ r) as [pop0 r1].
  unfold mbind, result_bind.
  destruct (evaluate_all _ _ _ _ pop0); [|discriminate]. by intros [= <-].
Qed.

(** The fuel that [runOptimization] gives to the loop is enough. *)
Lemma while_loop_total CGRA app sim_params tb (fuel : nat) (st : LoopState) :
  (Z.to_nat (Maximum_generation (params (obj st)) - gen_count st) ≤ fuel)%nat →
  is_Some (while_loop CGRA app sim_params tb fuel st).
Proof.
  revert st. induction fuel as [|fuel IH]; intros st Hfuel; simpl.
  - destruct (loop_cond st) eqn:Hc; [|done].
    unfold loop_cond in Hc. apply andb_true_iff in Hc as [Hc _].
    apply bool_decide_eq_true_1 in Hc. lia.
  - destruct (loop_cond st) eqn:Hc; [|done].
    unfold loop_cond in Hc. apply andb_true_iff in Hc as [Hc _].
    apply bool_decide_eq_true_1 in Hc.
    destruct (generation CGRA app sim_params tb st) as [st1|e] eqn:Hgen;
      [|done].
    apply IH.
    pose proof (generation_keeps_config _ _ _ _ _ _ Hgen) as [-> _].
    apply generation_inv in Hgen as (o & r & _ & _ & _ & _ & -> & _). lia.
Qed.

Lemma runOptimization_total CGRA app sim_params tb pygmo (self : t) (r : Rng) :
  is_Some (runOptimization CGRA app sim_params tb pygmo self r).
Proof.
  unfold runOptimization.
  destruct (initial_state CGRA app sim_params tb self r) as [st0|e] eqn:H0;
    [|done].
  destruct (while_loop_total CGRA app sim_params tb
              (Z.to_nat (Maximum_generation (params self))) st0) as [out Hout].
  - unfold initial_state in H0. destruct (population tb _ r) as [pop0 r1].
    unfold mbind, result_bind in H0.
    destruct (evaluate_all _ _ _ _ pop0); [|discriminate].
    injection H0 as <-. simpl. lia.
  - rewrite Hout. by destruct out.
Qed.

(** With quality tracking disabled, what follows the loop cannot raise and
    returns no quality series. *)
Lemma finish_disabled (pygmo : Pygmo) (st : LoopState) :
  hv_logging (obj st) = false →
  finish pygmo st =
  Ok (filter (fun ind => isValid ind = true) (hof st), None, obj st).
Proof. intros H. unfold finish. by rewrite H. Qed.

(** C8. When the optimizer was constructed with exactly one objective, or
    without pygmo, quality tracking is disabled once [setup] has run,
    whatever reference points were set before or after it. With quality
    tracking disabled, the end of the run raises nothing and returns the
    valid members of the archive with no quality series; the run as a whole
    comes to an end, and whenever it returns, it returns no quality
    series. *)
Theorem quality_tracking_disabled
    (CGRA : PEArrayModel) (app : Application) (sim_params : SimParameters)
    (tb : Toolbox) (pygmo : Pygmo) (prm : Params) (rtr : RouterBase)
    (evals : list EvalBase) (args : list EvalArgs) (pygmo_available : bool)
    (self0 : t) (before after : list (list Q)) (init_maps : list Mapping)
    (r : Rng) :
  init prm rtr evals args pygmo_available = Ok self0 →
  length evals = 1%nat ∨ pygmo_available = false →
  let self2 :=
    set_ref_points (setup (set_ref_points self0 before) init_maps).2 after in
  hv_logging self2 = false ∧
  (∀ st, hv_logging (obj st) = hv_logging self2 →
     finish pygmo st =
     Ok (filter (fun ind => isValid ind = true) (hof st), None, obj st)) ∧
  is_Some (runOptimization CGRA app sim_params tb pygmo self2 r) ∧
  (∀ archive quality self',
     runOptimization CGRA app sim_params tb pygmo self2 r =
       Some (Ok (archive, quality, self')) →
     quality = None).
Proof.
  intros Hinit Hcase self2.
  assert (hv_logging self2 = false) as Hoff.
  { unfold self2.
    destruct (set_ref_points_keeps_flag after
                (setup (set_ref_points self0 before) init_maps).2) as [-> _].
    destruct (setup_flag (set_ref_points self0 before) init_maps) as [-> _].
    destruct (set_ref_points_keeps_flag before self0) as [-> ->].
    unfold init in Hinit. case_bool_decide; [discriminate|].
    injection Hinit as <-. simpl.
    case_bool_decide; [done|]. destruct Hcase; done. }
  split; [exact Hoff|]. split.
  - intros st Hst. apply finish_disabled. by rewrite Hst.
  - split; [apply runOptimization_total|].
    intros archive quality self'. unfold runOptimization.
    destruct (initial_state CGRA app sim_params tb self2 r) as [st0|e] eqn:H0;
      [|discriminate].
    destruct (while_loop _ _ _ _ _ st0) as [[st|e]|] eqn:Hloop;
      [|discriminate|discriminate].
    apply while_loop_keeps_flag in Hloop.
    apply initial_state_keeps_flag in H0.
    rewrite finish_disabled by congruence. by intros [= _ <- _].
Qed.

(** One objective, pygmo installed, a reference point set before [setup]
    and another one after it. *)
Lemma quality_tracking_disabled_witness :
  hv_logging
    (set_ref_points (setup (set_ref_points Demo.single [[1%Q]]) [∅]).2
       [[2%Q]]) = false.
Proof.
  apply (quality_tracking_disabled Demo.CGRA Demo.app ∅ Demo.toolbox
           Demo.pygmo Demo.prm (Demo.fixed_router 100 1 2 3 4)
           [MapWidthEval_cls] [∅] true Demo.single [[1%Q]] [[2%Q]] [∅] 0%nat).
  - reflexivity.
  - left. reflexivity.
Defined.

(** The run of that optimizer returns its archive and no quality series. *)
Example single_objective_run :
  match runOptimization Demo.CGRA Demo.app ∅ Demo.toolbox Demo.pygmo
          (setup Demo.single [∅]).2 0%nat with
  | Some (Ok (archive, quality, _)) => Some (length archive, quality)
  | _ => None
  end = Some (1%nat, None).
Proof. vm_compute. reflexivity. Qed.

(** With two objectives and pygmo the same run returns a series, one value
    for each generation. *)
Example two_objective_run :
  match runOptimization Demo.CGRA Demo.app ∅ Demo.toolbox Demo.pygmo
          (setup Demo.engine [∅]).2 0%nat with
  | Some (Ok (archive, Some series, _)) => Some (length archive, length series)
  | _ => None
  end = Some (1%nat, 4%nat).
Proof. vm_compute. reflexivity. Qed.

End LoopTheorems.

(** ** Further properties of [MapWidthEval] *)

(** X1. The mapping width lies between 1 and the width of the array. *)
Theorem mapwidth_eval_bounds
    (CGRA : PEArrayModel) (app : Application) (sim_params : SimParameters)
    (ind ind' : Individual) (w : Z) :
  MapWidthEval.eval CGRA app sim_params ind = Ok (w, ind') →
  1 ≤ w ≤ (getSize CGRA).1.
Proof.
  unfold MapWidthEval.eval.
  destruct (py_max (MapWidthEval.x_coords_of CGRA ind)) as [m|e] eqn:E;
    simpl; [|discriminate].
  intros [= <- _]. apply py_max_spec in E as [Hin _].
  apply x_coords_spec in Hin as (v & y & _ & Hc & _). lia.
Qed.

Lemma mapwidth_eval_bounds_witness : 1 ≤ 2 ≤ (getSize Demo.CGRA).1.
Proof.
  apply (mapwidth_eval_bounds Demo.CGRA Demo.app ∅ Demo.wide
           (saveEvaluatedData "map_width" 2 Demo.wide) 2).
  vm_compute. reflexivity.
Defined.

(** X2. The width is saved in the candidate under "map_width"; the other
    saved results and the rest of the candidate are as they were. *)
Theorem mapwidth_eval_saves_width
    (CGRA : PEArrayModel) (app : Application) (sim_params : SimParameters)
    (ind ind' : Individual) (w : Z) :
  MapWidthEval.eval CGRA app sim_params ind = Ok (w, ind') →
  evaluated_data ind' !! "map_width" = Some w ∧
  (∀ key, key ≠ "map_width" →
          evaluated_data ind' !! key = evaluated_data ind !! key) ∧
  routed_graph ind' = routed_graph ind ∧
  mapping ind' = mapping ind ∧
  preg ind' = preg ind ∧
  routing_cost ind' = routing_cost ind ∧
  isValid ind' = isValid ind ∧
  fitness_values ind' = fitness_values ind.
Proof.
  unfold MapWidthEval.eval.
  destruct (py_max (MapWidthEval.x_coords_of CGRA ind)) as [m|e];
    simpl; [|discriminate].
  intros [= <- <-]. simpl. split; [apply lookup_insert_eq|].
  split; [|done]. intros key Hkey. by apply lookup_insert_ne.
Qed.

Lemma mapwidth_eval_saves_width_witness :
  evaluated_data (saveEvaluatedData "map_width" 2 Demo.wide) !! "map_width"
  = Some 2.
Proof.
  apply (mapwidth_eval_saves_width Demo.CGRA Demo.app ∅ Demo.wide
           (saveEvaluatedData "map_width" 2 Demo.wide) 2).
  vm_compute. reflexivity.
Defined.

(** X3. A candidate whose routed graph holds all the SE and ALU nodes of
    another one is at least as wide: when the smaller one has a width, the
    larger one has a width too, and it is not smaller. *)
Theorem mapwidth_eval_monotone
    (CGRA : PEArrayModel) (app : Application) (sim_params : SimParameters)
    (ind1 ind2 ind1' : Individual) (w1 : Z) :
  (∀ v, used_node CGRA ind1 v → v ∈ nodes (routed_graph ind2)) →
  MapWidthEval.eval CGRA app sim_params ind1 = Ok (w1, ind1') →
  ∃ w2 ind2',
    MapWidthEval.eval CGRA app sim_params ind2 = Ok (w2, ind2') ∧ w1 ≤ w2.
Proof.
  intros Hsub. unfold MapWidthEval.eval.
  destruct (py_max (MapWidthEval.x_coords_of CGRA ind1)) as [m1|e] eqn:E1;
    simpl; [|discriminate].
  intros [= <- _]. apply py_max_spec in E1 as [Hin1 _].
  apply x_coords_spec in Hin1 as (v & y & [Hv Hk] & Hc & Hy & Hp).
  assert (column_occupied CGRA ind2 m1) as Hocc.
  { exists v, y. repeat split; try done; try lia.
    apply Hsub. by split. }
  apply x_coords_spec in Hocc.
  destruct (py_max (MapWidthEval.x_coords_of CGRA ind2)) as [m2|e] eqn:E2.
  - simpl. eexists _, _. split; [reflexivity|].
    apply py_max_spec in E2 as [_ Hub]. apply Hub in Hocc. lia.
  - destruct (MapWidthEval.x_coords_of CGRA ind2); [inversion Hocc|].
    discriminate.
Qed.

Lemma mapwidth_eval_monotone_witness :
  ∃ w2 ind2',
    MapWidthEval.eval Demo.CGRA Demo.app ∅ Demo.wide = Ok (w2, ind2') ∧
    1 ≤ w2.
Proof.
  apply (mapwidth_eval_monotone Demo.CGRA Demo.app ∅
           (Demo.candidate ["ALU_0_0"] false []) Demo.wide
           (saveEvaluatedData "map_width" 1
              (Demo.candidate ["ALU_0_0"] false []))).
  - intros v [Hv _]. simpl in Hv. apply list_elem_of_singleton in Hv as ->.
    apply elem_of_cons. by left.
  - vm_compute. reflexivity.
Defined.

(** X4. The result depends only on which nodes the routed graph has, not on
    their order or multiplicity: two candidates with the same nodes get the
    same width, or the evaluation raises for both. *)
Theorem mapwidth_eval_same_nodes
    (CGRA : PEArrayModel) (app : Application) (sim_params : SimParameters)
    (ind1 ind2 : Individual) :
  (∀ v, v ∈ nodes (routed_graph ind1) ↔ v ∈ nodes (routed_graph ind2)) →
  ∀ w, (∃ ind1', MapWidthEval.eval CGRA app sim_params ind1 = Ok (w, ind1')) ↔
       (∃ ind2', MapWidthEval.eval CGRA app sim_params ind2 = Ok (w, ind2')).
Proof.
  intros Hsame.
  assert (∀ c, c ∈ MapWidthEval.x_coords_of CGRA ind1 ↔
               c ∈ MapWidthEval.x_coords_of CGRA ind2) as Hx.
  { intros c. rewrite !x_coords_spec. unfold column_occupied, used_node.
    split; intros (v & y & [Hv Hk] & H); exists v, y;
      (split; [split; [by apply Hsame|done]|done]). }
  assert (∀ m, py_max (MapWidthEval.x_coords_of CGRA ind1) = Ok m ↔
               py_max (MapWidthEval.x_coords_of CGRA ind2) = Ok m) as Hm.
  { intros m. rewrite !py_max_spec. split; intros [Hin Hub];
      (split; [by apply Hx|]); intros c Hc; apply Hub; by apply Hx. }
  intros w. unfold MapWidthEval.eval. split; intros [i H].
  - destruct (py_max (MapWidthEval.x_coords_of CGRA ind1)) as [m|e] eqn:E;
      simpl in H; [|discriminate].
    injection H as <- _. rewrite (proj1 (Hm m) eq_refl). simpl.
    by eexists.
  - destruct (py_max (MapWidthEval.x_coords_of CGRA ind2)) as [m|e] eqn:E;
      simpl in H; [|discriminate].
    injection H as <- _. rewrite (proj2 (Hm m) eq_refl). simpl.
    by eexists.
Qed.

Lemma mapwidth_eval_same_nodes_witness :
  ∃ ind2',
    MapWidthEval.eval Demo.CGRA Demo.app ∅
      (Demo.candidate ["SE_1_1"; "ALU_0_0"; "SE_1_1"] false [])
    = Ok (2, ind2').
Proof.
  apply (mapwidth_eval_same_nodes Demo.CGRA Demo.app ∅ Demo.wide
           (Demo.candidate ["SE_1_1"; "ALU_0_0"; "SE_1_1"] false [])).
  - intros v. simpl. rewrite !elem_of_cons, !elem_of_nil. tauto.
  - eexists. vm_compute. reflexivity.
Defined.

(** X5. On an array without columns or without rows the evaluation raises
    for every candidate. *)
Theorem mapwidth_eval_empty_grid
    (CGRA : PEArrayModel) (app : Application) (sim_params : SimParameters)
    (ind : Individual) :
  (getSize CGRA).1 ≤ 0 ∨ (getSize CGRA).2 ≤ 0 →
  MapWidthEval.eval CGRA app sim_params ind =
  Raise (ValueError "max() arg is an empty sequence").
Proof.
  intros Hsize.
  assert (MapWidthEval.x_coords_of CGRA ind = []) as E.
  { destruct (MapWidthEval.x_coords_of CGRA ind) as [|c l] eqn:E; [done|].
    assert (column_occupied CGRA ind c) as (v & y & _ & Hc & Hy & _).
    { apply x_coords_spec. rewrite E. apply elem_of_cons. by left. }
    lia. }
  unfold MapWidthEval.eval. by rewrite E.
Qed.

Lemma mapwidth_eval_empty_grid_witness :
  MapWidthEval.eval Demo.no_columns Demo.app ∅ Demo.wide =
  Raise (ValueError "max() arg is an empty sequence").
Proof.
  apply (mapwidth_eval_empty_grid Demo.no_columns Demo.app ∅ Demo.wide).
  left. simpl. lia.
Defined.

(** ** Further properties of the routing pipeline *)

(** The five ways in which the routing of a candidate that is not yet valid
    can go. *)
Lemma doRouting_cases (CGRA : PEArrayModel) (app : Application)
    (router : RouterBase) (m : Machine) :
  isValid (cand m) = false →
  ∃ m', NSGA2.doRouting CGRA app router m = Ok (tt, m') ∧
    mapping (cand m') = mapping (cand m) ∧
    preg (cand m') = preg (cand m) ∧
    fitness_values (cand m') = fitness_values (cand m) ∧
    evaluated_data (cand m') = evaluated_data (cand m) ∧
    let P := get_penalty_cost router in
    let t1 := total1 CGRA app router (cand m) in
    let t2 := total2 CGRA app router (cand m) in
    let t3 := total3 CGRA app router (cand m) in
    let t4 := total4 CGRA app router (cand m) in
    (t1 > P ∧ isValid (cand m') = false ∧ routing_cost (cand m') = t1 + P ∧
     routed_graph (cand m') = (after_comp CGRA app router (cand m)).2 ∧
     calls m' = calls m ++ take 2 (full_routing_calls CGRA app router (cand m)))
    ∨
    (t1 ≤ P ∧ t2 > P ∧
     isValid (cand m') = false ∧ routing_cost (cand m') = t2 + P ∧
     routed_graph (cand m') = (after_const CGRA app router (cand m)).2 ∧
     calls m' = calls m ++ take 3 (full_routing_calls CGRA app router (cand m)))
    ∨
    (t1 ≤ P ∧ t2 ≤ P ∧ t3 > P ∧
     isValid (cand m') = false ∧ routing_cost (cand m') = t3 + P ∧
     routed_graph (cand m') = (after_input CGRA app router (cand m)).2 ∧
     calls m' = calls m ++ take 4 (full_routing_calls CGRA app router (cand m)))
    ∨
    (t1 ≤ P ∧ t2 ≤ P ∧ t3 ≤ P ∧ t4 > P ∧
     isValid (cand m') = false ∧ routing_cost (cand m') = t4 + P ∧
     routed_graph (cand m') = (after_output CGRA app router (cand m)).2 ∧
     calls m' = calls m ++ take 5 (full_routing_calls CGRA app router (cand m)))
    ∨
    (t1 ≤ P ∧ t2 ≤ P ∧ t3 ≤ P ∧ t4 ≤ P ∧
     isValid (cand m') = true ∧ routing_cost (cand m') = t4 ∧
     routed_graph (cand m') =
       clean_graph router (after_output CGRA app router (cand m)).2 ∧
     calls m' = calls m ++ full_routing_calls CGRA app router (cand m)).
Proof.
  intros Hv.
  destruct (decide (total1 CGRA app router (cand m) > get_penalty_cost router))
    as [H1|H1].
  { eexists. split; [by apply doRouting_stop1|]. simpl.
    repeat (split; [done|]). left. by repeat split. }
  destruct (decide (total2 CGRA app router (cand m) > get_penalty_cost router))
    as [H2|H2].
  { eexists. split; [apply doRouting_stop2; [done|lia|done]|]. simpl.
    repeat (split; [done|]). right. left. repeat split; try done; lia. }
  destruct (decide (total3 CGRA app router (cand m) > get_penalty_cost router))
    as [H3|H3].
  { eexists. split; [apply doRouting_stop3; [done|lia|lia|done]|]. simpl.
    repeat (split; [done|]). right. right. left.
    repeat split; try done; lia. }
  destruct (decide (total4 CGRA app router (cand m) > get_penalty_cost router))
    as [H4|H4].
  { eexists. split; [apply doRouting_stop4; [done|lia|lia|lia|done]|]. simpl.
    repeat (split; [done|]). right. right. right. left.
    repeat split; try done; lia. }
  eexists. split; [apply doRouting_pass; [done|]|].
  { unfold within_penalty. simpl. lia. }
  simpl. repeat (split; [done|]). right. right. right. right.
  repeat split; try done; lia.
Qed.

Ltac call_iff :=
  unfold full_routing_calls; simpl; rewrite ?elem_of_cons, ?elem_of_nil;
  split;
  [ let Hin := fresh "Hin" in
    intros Hin;
    repeat (destruct Hin as [Hin|Hin]; try discriminate Hin);
    try done; lia
  | let Hrhs := fresh "Hrhs" in
    intros Hrhs;
    first [ exfalso; lia
          | repeat (first [left; reflexivity | right]) ] ].

(** X6. The stages run in a fixed order and stop at the first boundary that
    fails: the router's calls are an initial part of the sequence of a
    passing routing; the constant stage is run exactly when the total after
    the computation stage is within the penalty, the input stage exactly
    when the totals after the first two stages are, the output stage exactly
    when the totals after the first three are, and [validate] exactly when
    all four are. *)
Theorem doRouting_stage_order
    (CGRA : PEArrayModel) (app : Application) (router : RouterBase)
    (m : Machine) :
  isValid (cand m) = false →
  ∃ m' added,
    NSGA2.doRouting CGRA app router m = Ok (tt, m') ∧
    calls m' = calls m ++ added ∧
    added `prefix_of` full_routing_calls CGRA app router (cand m) ∧
    Call_comp_routing ∈ added ∧
    (Call_const_routing ∈ added ↔
       total1 CGRA app router (cand m) ≤ get_penalty_cost router) ∧
    (Call_input_routing ∈ added ↔
       total1 CGRA app router (cand m) ≤ get_penalty_cost router ∧
       total2 CGRA app router (cand m) ≤ get_penalty_cost router) ∧
    (Call_output_routing (bool_decide (getPregNumber CGRA > 0)) ∈ added ↔
       total1 CGRA app router (cand m) ≤ get_penalty_cost router ∧
       total2 CGRA app router (cand m) ≤ get_penalty_cost router ∧
       total3 CGRA app router (cand m) ≤ get_penalty_cost router) ∧
    (Call_validate ∈ added ↔ within_penalty CGRA app router (cand m)).
Proof.
  intros Hv.
  destruct (doRouting_cases CGRA app router m Hv)
    as (m' & Hrun & _ & _ & _ & _ & Hcases).
  cbv zeta in Hcases. unfold within_penalty. cbv zeta.
  destruct Hcases as [(H1 & _ & _ & _ & Hc)
                     |[(H1 & H2 & _ & _ & _ & Hc)
                     |[(H1 & H2 & H3 & _ & _ & _ & Hc)
                     |[(H1 & H2 & H3 & H4 & _ & _ & _ & Hc)
                     |(H1 & H2 & H3 & H4 & _ & _ & _ & Hc)]]]];
    eexists m', _; (split; [exact Hrun|]); (split; [exact Hc|]);
    (split; [try apply prefix_take; done|]);
    (split; [unfold full_routing_calls; simpl; rewrite ?elem_of_cons;
             auto 10|]);
    (split; [call_iff|]); (split; [call_iff|]); (split; [call_iff|]);
    call_iff.
Qed.

Lemma doRouting_stage_order_witness :
  ∃ m' added,
    NSGA2.doRouting Demo.CGRA Demo.app (Demo.fixed_router 5 2 4 0 0)
      {| cand := Demo.narrow; calls := [] |} = Ok (tt, m') ∧
    calls m' = [] ++ added ∧
    Call_const_routing ∈ added ∧
    Call_input_routing ∉ added.
Proof.
  destruct (doRouting_stage_order Demo.CGRA Demo.app
              (Demo.fixed_router 5 2 4 0 0)
              {| cand := Demo.narrow; calls := [] |})
    as (m' & added & Hrun & Hc & _ & _ & Hconst & Hinput & _);
    [reflexivity|].
  exists m', added. split; [exact Hrun|]. split; [exact Hc|]. split.
  - apply Hconst. vm_compute. discriminate.
  - intros Hin. apply Hinput in Hin as [_ H2]. vm_compute in H2. by apply H2.
Defined.

(** X7. The routing cost tells the two outcomes apart: a candidate that the
    routing validates has a routing cost of at most the penalty; one that it
    leaves invalid has a routing cost above twice the penalty. *)
Theorem doRouting_cost_separates
    (CGRA : PEArrayModel) (app : Application) (router : RouterBase)
    (m : Machine) :
  isValid (cand m) = false →
  ∃ m', NSGA2.doRouting CGRA app router m = Ok (tt, m') ∧
    (isValid (cand m') = true →
       routing_cost (cand m') ≤ get_penalty_cost router) ∧
    (isValid (cand m') = false →
       routing_cost (cand m') > 2 * get_penalty_cost router).
Proof.
  intros Hv.
  destruct (doRouting_cases CGRA app router m Hv)
    as (m' & Hrun & _ & _ & _ & _ & Hcases).
  exists m'. split; [exact Hrun|]. cbv zeta in Hcases.
  destruct Hcases as [(H1 & Hval & Hcost & _)
                     |[(H1 & H2 & Hval & Hcost & _)
                     |[(H1 & H2 & H3 & Hval & Hcost & _)
                     |[(H1 & H2 & H3 & H4 & Hval & Hcost & _)
                     |(H1 & H2 & H3 & H4 & Hval & Hcost & _)]]]];
    rewrite Hval, Hcost; split; intros; try done; lia.
Qed.

Lemma doRouting_cost_separates_witness :
  ∃ m', NSGA2.doRouting Demo.CGRA Demo.app (Demo.fixed_router 5 2 4 0 0)
          {| cand := Demo.narrow; calls := [] |} = Ok (tt, m') ∧
    (isValid (cand m') = true → routing_cost (cand m') ≤ 5) ∧
    (isValid (cand m') = false → routing_cost (cand m') > 2 * 5).
Proof.
  apply (doRouting_cost_separates Demo.CGRA Demo.app
           (Demo.fixed_router 5 2 4 0 0)
           {| cand := Demo.narrow; calls := [] |}).
  reflexivity.
Defined.

(** X9. A candidate is routed once if the routing validates it, and again
    otherwise. A second run of the routing on a validated candidate calls
    nothing and changes nothing. A candidate that stayed invalid carries the
    routing graph of the stage at which the attempt stopped; the second run
    calls the router again and is a routing of the candidate with that
    graph: it validates the candidate exactly when the totals computed from
    that graph stay within the penalty, and the cost and the graph it leaves
    are those of the stages run from that graph. *)
Theorem doRouting_twice
    (CGRA : PEArrayModel) (app : Application) (router : RouterBase)
    (m m1 : Machine) :
  NSGA2.doRouting CGRA app router m = Ok (tt, m1) →
  (isValid (cand m1) = true →
     NSGA2.doRouting CGRA app router m1 = Ok (tt, m1)) ∧
  (isValid (cand m1) = false →
     routed_graph (cand m1) = stopped_graph CGRA app router (cand m) ∧
     ∃ m2 added,
       NSGA2.doRouting CGRA app router m1 = Ok (tt, m2) ∧
       calls m2 =
         calls m1 ++ Call_get_penalty_cost :: Call_comp_routing :: added ∧
       (isValid (cand m2) = true ↔
          within_penalty CGRA app router (cand m1)) ∧
       routing_cost (cand m2) =
         (if isValid (cand m2) then total4 CGRA app router (cand m1)
          else first_excess CGRA app router (cand m1) +
               get_penalty_cost router) ∧
       routed_graph (cand m2) =
         (if isValid (cand m2)
          then clean_graph router (after_output CGRA app router (cand m1)).2
          else stopped_graph CGRA app router (cand m1))).
Proof.
  intros Hrun. split; [apply doRouting_skip|]. intros Hv1. split.
  - destruct (isValid (cand m)) eqn:Hv.
    + rewrite doRouting_skip in Hrun by done. injection Hrun as <-.
      congruence.
    + destruct (doRouting_cases CGRA app router m Hv)
        as (m' & Hrun' & _ & _ & _ & _ & Hcases).
      rewrite Hrun in Hrun'. injection Hrun' as <-.
      cbv zeta in Hcases. unfold stopped_graph. cbv zeta.
      destruct Hcases as [(? & _ & _ & Hg & _)
                         |[(? & ? & _ & _ & Hg & _)
                         |[(? & ? & ? & _ & _ & Hg & _)
                         |[(? & ? & ? & ? & _ & _ & Hg & _)
                         |(_ & _ & _ & _ & Hval & _)]]]];
        [rewrite Hg; repeat case_bool_decide; (reflexivity || lia) ..
        |congruence].
  - destruct (doRouting_cases CGRA app router m1 Hv1)
      as (m2 & Hrun2 & _ & _ & _ & _ & Hcases).
    cbv zeta in Hcases. unfold full_routing_calls in Hcases. simpl in Hcases.
    destruct Hcases as [(? & Hval & Hcost & Hg & Hc)
                       |[(? & ? & Hval & Hcost & Hg & Hc)
                       |[(? & ? & ? & Hval & Hcost & Hg & Hc)
                       |[(? & ? & ? & ? & Hval & Hcost & Hg & Hc)
                       |(? & ? & ? & ? & Hval & Hcost & Hg & Hc)]]]];
      eexists m2, _; (split; [exact Hrun2|]); (split; [exact Hc|]);
      rewrite Hval, Hcost, Hg;
      unfold within_penalty, first_excess, stopped_graph; cbv zeta;
      (split; [split; [try discriminate; intros _; lia
                      |try reflexivity; intros (? & ? & ? & ?); lia]|]);
      split; repeat case_bool_decide; (reflexivity || lia).
Qed.

(** A candidate that the router fails at the second boundary: the second
    run starts from the graph that the first one left. *)
Lemma doRouting_twice_witness :
  ∃ m2 added,
    NSGA2.doRouting Demo.CGRA Demo.app (Demo.growing_router 3 5)
      Demo.attempt0 = Ok (tt, Demo.attempt1) ∧
    isValid (cand Demo.attempt1) = false ∧
    NSGA2.doRouting Demo.CGRA Demo.app (Demo.growing_router 3 5)
      Demo.attempt1 = Ok (tt, m2) ∧
    calls m2 =
      calls Demo.attempt1 ++
      Call_get_penalty_cost :: Call_comp_routing :: added.
Proof.
  assert (NSGA2.doRouting Demo.CGRA Demo.app (Demo.growing_router 3 5)
            Demo.attempt0 = Ok (tt, Demo.attempt1)) as Hrun.
  { apply from_Ok_unit_spec. vm_compute. reflexivity. }
  assert (isValid (cand Demo.attempt1) = false) as Hv
    by (vm_compute; reflexivity).
  destruct (doRouting_twice Demo.CGRA Demo.app (Demo.growing_router 3 5)
              Demo.attempt0 Demo.attempt1 Hrun) as [_ H].
  destruct (H Hv) as (_ & m2 & added & Hrun2 & Hc & _).
  exists m2, added.
  split; [exact Hrun|]. split; [exact Hv|]. split; [exact Hrun2|exact Hc].
Defined.

(** The two attempts on that candidate: the first one stops at the second
    boundary with cost 7 + 3, the second one already at the first boundary,
    because the graph has grown to four nodes, with cost 4 + 3. *)
Example doRouting_twice_costs :
  routing_cost (cand Demo.attempt1) = 10 ∧
  routing_cost
    (cand (from_Ok (tt, Demo.attempt0)
             (NSGA2.doRouting Demo.CGRA Demo.app (Demo.growing_router 3 5)
                Demo.attempt1)).2) = 7.
Proof. split; vm_compute; reflexivity. Qed.

(** ** Further properties of the evaluation of candidates *)

Section EvaluationFacts.

Import NSGA2.

Variable CGRA : PEArrayModel.
Variable app : Application.
Variable sim_params : SimParameters.

(** The objectives of a list that is cut in two are evaluated one part
    after the other, on the candidate as the first part left it. *)
Lemma eval_each_app (l1 l2 : list (EvalBase * EvalArgs)) (m : Machine) :
  eval_each CGRA app sim_params (l1 ++ l2) m =
  match eval_each CGRA app sim_params l1 m with
  | Ok (fit1, m1) =>
      match eval_each CGRA app sim_params l2 m1 with
      | Ok (fit2, m2) => Ok (fit1 ++ fit2, m2)
      | Raise e => Raise e
      end
  | Raise e => Raise e
  end.
Proof.
  revert m. induction l1 as [|[cls args] l1 IH]; intros m; simpl.
  - unfold mret, Eff_ret.
    by destruct (eval_each CGRA app sim_params l2 m) as [[fit2 m2]|e].
  - unfold mbind, Eff_bind.
    destruct (call_eval cls CGRA app sim_params args m) as [[v m0]|e];
      [|done].
    rewrite IH. unfold mret, Eff_ret.
    destruct (eval_each CGRA app sim_params l1 m0) as [[fit1 m1]|e]; [|done].
    by destruct (eval_each CGRA app sim_params l2 m1) as [[fit2 m2]|e].
Qed.

Lemma toolbox_map_Forall2 {A B : Type} (f : A → result B) (l : list A)
    (l' : list B) :
  toolbox_map f l = Ok l' → Forall2 (fun a b => f a = Ok b) l l'.
Proof.
  revert l'. induction l as [|a l IH]; intros l'; simpl.
  - intros [= <-]. constructor.
  - unfold mbind, result_bind. destruct (f a) as [b|e] eqn:E; [|discriminate].
    destruct (toolbox_map f l) as [bs|e']; [|discriminate].
    intros [= <-]. constructor; [done|]. by apply IH.
Qed.

Lemma toolbox_map_app {A B : Type} (f : A → result B) (l1 l2 : list A) :
  toolbox_map f (l1 ++ l2) =
  match toolbox_map f l1 with
  | Ok bs1 =>
      match toolbox_map f l2 with
      | Ok bs2 => Ok (bs1 ++ bs2)
      | Raise e => Raise e
      end
  | Raise e => Raise e
  end.
Proof.
  induction l1 as [|a l1 IH]; simpl.
  - unfold mret, result_ret. by destruct (toolbox_map f l2).
  - unfold mbind, result_bind. destruct (f a) as [b|e]; [|done].
    rewrite IH. destruct (toolbox_map f l1) as [bs1|e]; [|done].
    by destruct (toolbox_map f l2).
Qed.

End EvaluationFacts.

(** X10. The objectives are evaluated in registered order and the first
    exception ends the evaluation: when the objectives before one evaluate
    and that one raises on the candidate as they left it, [eval_objectives]
    raises the same exception. *)
Theorem eval_objectives_first_exception
    (CGRA : PEArrayModel) (app : Application) (sim_params : SimParameters)
    (router : RouterBase)
    (evals1 evals2 : list EvalBase) (args1 args2 : list EvalArgs)
    (cls : EvalBase) (args : EvalArgs)
    (m m0 m1 : Machine) (fit1 : list Z) (e : exn) :
  length evals1 = length args1 →
  NSGA2.doRouting CGRA app router m = Ok (tt, m0) →
  NSGA2.eval_each CGRA app sim_params (zip evals1 args1) m0 = Ok (fit1, m1) →
  eval cls CGRA app sim_params (cand m1) args = Raise e →
  NSGA2.eval_objectives (evals1 ++ cls :: evals2) (args1 ++ args :: args2)
    CGRA app sim_params router m = Raise e.
Proof.
  intros Hlen Hroute H1 Hraise.
  unfold NSGA2.eval_objectives, mbind, Eff_bind. rewrite Hroute.
  rewrite zip_with_app by done. rewrite eval_each_app, H1. simpl.
  unfold mbind, Eff_bind, call_eval. by rewrite Hraise.
Qed.

(** The width objective raises on a candidate without SE and ALU, after the
    cost objective was evaluated. *)
Lemma eval_objectives_first_exception_witness :
  NSGA2.eval_objectives ([Demo.RoutingCostEval] ++ MapWidthEval_cls :: [])
    ([∅] ++ ∅ :: []) Demo.CGRA Demo.app ∅ (Demo.fixed_router 5 7 0 0 0)
    {| cand := Demo.blank; calls := [] |} =
  Raise (ValueError "max() arg is an empty sequence").
Proof.
  eapply (eval_objectives_first_exception Demo.CGRA Demo.app ∅
            (Demo.fixed_router 5 7 0 0 0)).
  - reflexivity.
  - vm_compute. reflexivity.
  - vm_compute. reflexivity.
  - vm_compute. reflexivity.
Defined.

(** X11. With as many argument dicts as objectives, a fitness that
    [eval_objectives] returns has one value for each objective, whether the
    routing validated the candidate or not; every objective was called
    once, in order, after the routing. *)
Theorem eval_objectives_fitness_length
    (evals : list EvalBase) (args : list EvalArgs)
    (CGRA : PEArrayModel) (app : Application) (sim_params : SimParameters)
    (router : RouterBase) (m m' : Machine) (fit : list Z) :
  length evals = length args →
  NSGA2.eval_objectives evals args CGRA app sim_params router m
    = Ok (fit, m') →
  length fit = length evals ∧
  ∃ m0, NSGA2.doRouting CGRA app router m = Ok (tt, m0) ∧
        calls m' = calls m0 ++ ((fun cls => Call_eval (name cls)) <$> evals).
Proof.
  intros Hlen. unfold NSGA2.eval_objectives, mbind, Eff_bind.
  destruct (NSGA2.doRouting CGRA app router m) as [[[] m0]|e] eqn:Hroute;
    [|discriminate].
  intros H. apply eval_each_calls in H as [Hc Hl].
  split.
  - rewrite Hl, length_zip_with. lia.
  - exists m0. split; [done|]. rewrite Hc. f_equal.
    rewrite <- (fst_zip evals args) at 2 by lia.
    by rewrite <- list_fmap_compose.
Qed.

Lemma eval_objectives_fitness_length_witness :
  ∃ fit m',
    NSGA2.eval_objectives (NSGA2.eval_list Demo.engine)
      (NSGA2.eval_args Demo.engine) Demo.CGRA Demo.app ∅
      (Demo.fixed_router 5 7 0 0 0) {| cand := Demo.narrow; calls := [] |}
    = Ok (fit, m') ∧
    length fit = 2%nat ∧ isValid (cand m') = false.
Proof.
  destruct (NSGA2.eval_objectives (NSGA2.eval_list Demo.engine)
              (NSGA2.eval_args Demo.engine) Demo.CGRA Demo.app ∅
              (Demo.fixed_router 5 7 0 0 0)
              {| cand := Demo.narrow; calls := [] |})
    as [[fit m']|e] eqn:E; [|vm_compute in E; discriminate].
  exists fit, m'. split; [reflexivity|]. split.
  - by destruct (eval_objectives_fitness_length
                   (NSGA2.eval_list Demo.engine) (NSGA2.eval_args Demo.engine)
                   Demo.CGRA Demo.app ∅ (Demo.fixed_router 5 7 0 0 0)
                   {| cand := Demo.narrow; calls := [] |} m' fit eq_refl E)
      as [-> _].
  - vm_compute in E. by injection E as <- <-.
Defined.

Section BatchFacts.

Import NSGA2.

Variable CGRA : PEArrayModel.
Variable app : Application.
Variable sim_params : SimParameters.

Lemma zip_with_unzipped {A B C : Type} (g : B → A → C) (rs : list (A * B)) :
  zip_with g (rs.*2) (rs.*1) = (fun p => g p.2 p.1) <$> rs.
Proof. induction rs as [|[a b] rs IH]; simpl; [done|]. f_equal. apply IH. Qed.

Lemma toolbox_map_all_succeed {A B : Type} (f : A → result B) (l : list A) :
  Forall (fun a => succeeded (f a) = true) l →
  ∃ bs, toolbox_map f l = Ok bs.
Proof.
  induction 1 as [|a l Ha _ [bs IH]]; simpl; [by eexists|].
  unfold mbind, result_bind. destruct (f a) as [b|e]; [|discriminate].
  rewrite IH. by eexists.
Qed.

End BatchFacts.

(** X12. The evaluation of a batch keeps the correspondence between
    candidates and results: the batch returned has the candidates in the
    order of the input, each one as its own evaluation left it, with a
    fitness of as many values as this evaluation returned. The fitness is
    stored as floating point numbers, so it is the fitness that the
    evaluation returned when every value of it is an integer that a double
    represents exactly (between -2^53 and 2^53). The fitness class accepts
    one value for each objective, so there have to be as many argument
    dicts as objectives. *)
Theorem evaluate_all_correspondence
    (CGRA : PEArrayModel) (app : Application) (sim_params : SimParameters)
    (self : NSGA2.t) (inds inds' : list Individual) :
  length (NSGA2.eval_list self) = length (NSGA2.eval_args self) →
  NSGA2.evaluate_all CGRA app sim_params self inds = Ok inds' →
  Forall2
    (fun ind ind' =>
       ∃ fit ind1,
         NSGA2.evaluate CGRA app sim_params self ind = Ok (fit, ind1) ∧
         mapping ind' = mapping ind1 ∧
         preg ind' = preg ind1 ∧
         routed_graph ind' = routed_graph ind1 ∧
         routing_cost ind' = routing_cost ind1 ∧
         isValid ind' = isValid ind1 ∧
         evaluated_data ind' = evaluated_data ind1 ∧
         length (fitness_values ind') = length fit ∧
         (Forall (fun v => - 2 ^ 53 ≤ v ≤ 2 ^ 53) fit →
          fitness_values ind' = fit))
    inds inds'.
Proof.
  intros _. unfold NSGA2.evaluate_all, mbind, result_bind.
  destruct (NSGA2.toolbox_map _ inds) as [rs|e] eqn:E; [|discriminate].
  apply toolbox_map_Forall2 in E.
  intros Hrs.
  assert (inds' = (fun p => set_fitness_values p.1 p.2) <$> rs) as ->.
  { destruct rs as [|p rs]; [discriminate|].
    unfold NSGA2.unpack2 in Hrs. injection Hrs as <-.
    by rewrite zip_with_unzipped. }
  apply Forall2_fmap_r. eapply Forall2_impl; [exact E|].
  intros ind [fit ind1] H. simpl. exists fit, ind1.
  split; [exact H|]. repeat (split; [reflexivity|]). intros _. reflexivity.
Qed.

Lemma evaluate_all_correspondence_witness :
  ∃ inds',
    NSGA2.evaluate_all Demo.CGRA Demo.app ∅ Demo.engine
      [Demo.wide; Demo.narrow] = Ok inds' ∧
    fitness_values <$> inds' = [[2; 10]; [1; 10]].
Proof.
  destruct (succeeded_Ok
              (NSGA2.evaluate_all Demo.CGRA Demo.app ∅ Demo.engine
                 [Demo.wide; Demo.narrow])) as [inds' E];
    [vm_compute; reflexivity|].
  exists inds'. split; [exact E|].
  pose proof (evaluate_all_correspondence Demo.CGRA Demo.app ∅ Demo.engine
                [Demo.wide; Demo.narrow] inds' eq_refl E) as H.
  apply Forall2_cons_inv_l in H
    as (i1 & l1 & (f1 & j1 & H1 & _ & _ & _ & _ & _ & _ & _ & F1) & H & ->).
  apply Forall2_cons_inv_l in H
    as (i2 & l2 & (f2 & j2 & H2 & _ & _ & _ & _ & _ & _ & _ & F2) & H & ->).
  apply Forall2_nil_inv_l in H as ->.
  vm_compute in H1. vm_compute in H2.
  injection H1 as <- _. injection H2 as <- _.
  simpl. rewrite F1, F2; [reflexivity| |];
    repeat (constructor; [vm_compute; split; discriminate|]); constructor.
Defined.

(** X13. The evaluation of an empty batch raises a [ValueError], because
    the two result lists cannot be unpacked; and when one candidate of a
    batch raises while all the other candidates of the batch, before and
    after it, evaluate, the evaluation of the batch raises that
    exception. *)
Theorem evaluate_all_raises
    (CGRA : PEArrayModel) (app : Application) (sim_params : SimParameters)
    (self : NSGA2.t) :
  NSGA2.evaluate_all CGRA app sim_params self [] =
    Raise (ValueError "not enough values to unpack (expected 2, got 0)") ∧
  ∀ (before after : list Individual) (ind : Individual) (e : exn),
    Forall (fun i =>
              succeeded (NSGA2.evaluate CGRA app sim_params self i) = true)
      before →
    Forall (fun i =>
              succeeded (NSGA2.evaluate CGRA app sim_params self i) = true)
      after →
    NSGA2.evaluate CGRA app sim_params self ind = Raise e →
    NSGA2.evaluate_all CGRA app sim_params self (before ++ ind :: after)
      = Raise e.
Proof.
  split; [reflexivity|]. intros before after ind e Hb _ He.
  unfold NSGA2.evaluate_all, mbind, result_bind.
  rewrite toolbox_map_app.
  destruct (toolbox_map_all_succeed _ _ Hb) as [bs ->].
  simpl. unfold mbind, result_bind. by rewrite He.
Qed.

Lemma evaluate_all_raises_witness :
  NSGA2.evaluate_all Demo.CGRA Demo.app ∅ Demo.engine_tight
    ([Demo.wide] ++ Demo.blank :: [Demo.narrow]) =
  Raise (ValueError "max() arg is an empty sequence").
Proof.
  destruct (evaluate_all_raises Demo.CGRA Demo.app ∅ Demo.engine_tight)
    as [_ H].
  apply (H [Demo.wide] [Demo.narrow] Demo.blank).
  - constructor; [vm_compute; reflexivity|constructor].
  - constructor; [vm_compute; reflexivity|constructor].
  - vm_compute. reflexivity.
Defined.

(** ** Further properties of the generational loop *)

Section RunFacts.

Import NSGA2.

Variable CGRA : PEArrayModel.
Variable app : Application.
Variable sim_params : SimParameters.
Variable tb : Toolbox.

(** What one iteration does to the archive and to the fitness history. *)
Lemma generation_archive (st st' : LoopState) :
  generation CGRA app sim_params tb st = Ok st' →
  hof st' ≠ [] ∧
  fitness_hof_log st' =
    fitness_hof_log st ++
    [fitness_values <$> filter (fun ind => isValid ind = true) (hof st')] ∧
  router (obj st') = router (obj st) ∧
  eval_list (obj st') = eval_list (obj st) ∧
  eval_args (obj st') = eval_args (obj st) ∧
  hv_refpoint (obj st') = hv_refpoint (obj st).
Proof.
  unfold generation.
  destruct (varOr tb _ _ _ _ _) as [offspring r1]; simpl.
  unfold mbind, result_bind.
  destruct (evaluate_all _ _ _ _ offspring) as [offspring'|e]; [|discriminate].
  destruct (random_population tb _ r1) as [rnd r2]; simpl.
  destruct (evaluate_all _ _ _ _ rnd) as [rnd'|e]; [|discriminate].
  destruct (stats_compile _) eqn:Hstats; [|discriminate].
  intros [= <-]. simpl. split; [|done].
  intros Hnil. rewrite Hnil in Hstats. discriminate.
Qed.

(** The state in which the loop is entered. *)
Lemma initial_state_inv (self : t) (r : Rng) (st0 : LoopState) :
  initial_state CGRA app sim_params tb self r = Ok st0 →
  ∃ pop0,
    evaluate_all CGRA app sim_params self
      (population tb (Initial_population_size (params self)) r).1 = Ok pop0 ∧
    obj st0 = set_pop pop0 self ∧
    hof st0 = [] ∧ prev_hof st0 = [] ∧ fitness_hof_log st0 = [] ∧
    gen_count st0 = 0 ∧ stall_count st0 = 0.
Proof.
  unfold initial_state. destruct (population tb _ r) as [pop0 r1]. simpl.
  unfold mbind, result_bind.
  destruct (evaluate_all _ _ _ _ pop0) as [pop0'|e]; [|discriminate].
  intros [= <-]. by exists pop0'.
Qed.

(** A loop that ends normally went through the states of [reaches] and
    ends where its condition fails. *)
Lemma while_loop_reaches (fuel : nat) (st st' : LoopState) :
  while_loop CGRA app sim_params tb fuel st = Some (Ok st') →
  reaches CGRA app sim_params tb st st' ∧ loop_cond st' = false.
Proof.
  revert st. induction fuel as [|fuel IH]; intros st; simpl.
  - destruct (loop_cond st) eqn:Hc; [discriminate|].
    intros [= <-]. split; [constructor|done].
  - destruct (loop_cond st) eqn:Hc.
    + destruct (generation CGRA app sim_params tb st) as [st1|e] eqn:Hgen;
        [|discriminate].
      intros H. apply IH in H as [Hr Hend]. split; [|done].
      unfold loop_cond in Hc. apply andb_true_iff in Hc as [Hc1 Hc2].
      apply bool_decide_eq_true_1 in Hc1, Hc2.
      by apply (reaches_step _ _ _ _ st st1 st').
    + intros [= <-]. split; [constructor|done].
Qed.

Lemma generation_after (st st' : LoopState) :
  (gen_count st = 0 ∧ prev_hof st = [] ∧ fitness_hof_log st = []) ∨
  after_a_generation st →
  generation CGRA app sim_params tb st = Ok st' →
  after_a_generation st'.
Proof.
  intros Hst Hgen.
  pose proof (generation_archive _ _ Hgen) as (Hne & Hlog & _).
  apply generation_inv in Hgen as (o & r & _ & _ & _ & _ & Hg & Hs & Hp).
  unfold after_a_generation. rewrite Hg, Hlog, length_app. simpl.
  destruct Hst as [(H0 & Hprev & Hl)|(H1 & _ & _ & Hb & Hl)].
  - rewrite H0, Hl. simpl. repeat split; try done; try lia.
    + rewrite Hs. unfold update_stall. rewrite Hprev.
      rewrite bool_decide_eq_false_2; [lia|].
      destruct (hof st'); simpl; [done|lia].
    + rewrite Hs. unfold update_stall. rewrite Hprev.
      rewrite bool_decide_eq_false_2; [lia|].
      destruct (hof st'); simpl; [done|lia].
  - rewrite Hl. repeat split; try done; try lia;
      rewrite Hs;
      destruct (update_stall_cases (hof st') (prev_hof st) (stall_count st))
        as [(_ & _ & ->)|[_ ->]]; lia.
Qed.

Lemma reaches_after (st st' : LoopState) :
  reaches CGRA app sim_params tb st st' →
  (gen_count st = 0 ∧ prev_hof st = [] ∧ fitness_hof_log st = []) ∨
  after_a_generation st →
  st' = st ∨ after_a_generation st'.
Proof.
  induction 1 as [st|st st1 st2 _ _ Hgen _ IH]; intros Hst; [by left|].
  right. pose proof (generation_after _ _ Hst Hgen) as H1.
  destruct (IH (or_intror H1)) as [->|H2]; done.
Qed.

(** The loop keeps the configuration, the objectives and the reference
    point of the optimizer. *)
Lemma reaches_keeps_config (st st' : LoopState) :
  reaches CGRA app sim_params tb st st' →
  params (obj st') = params (obj st) ∧
  router (obj st') = router (obj st) ∧
  eval_list (obj st') = eval_list (obj st) ∧
  eval_args (obj st') = eval_args (obj st) ∧
  hv_logging (obj st') = hv_logging (obj st) ∧
  hv_refpoint (obj st') = hv_refpoint (obj st).
Proof.
  induction 1 as [st|st st1 st2 _ _ Hgen _ IH]; [done|].
  destruct IH as (-> & -> & -> & -> & -> & ->).
  pose proof (generation_keeps_config _ _ _ _ _ _ Hgen) as [-> ->].
  by pose proof (generation_archive _ _ Hgen) as (_ & _ & -> & -> & -> & ->).
Qed.

End RunFacts.

(** ** The size of the population *)

Section PopulationTheorems.

Import NSGA2.



(** The sizes of that run. *)
Example first_generation_shrinks_population :
  length (pop (obj Demo.state0_large)) = 10%nat ∧
  length (pop (obj Demo.state1_large)) = 6%nat ∧
  length (pop (obj Demo.state2_large)) = 6%nat.
Proof.
  split; [vm_compute; reflexivity|].
  split; vm_compute; reflexivity.
Qed.

End PopulationTheorems.

Section RunTheorems.

Import NSGA2.

(** X14. With an initial population size of zero or less the run raises a
    [ValueError] before the first generation: there is no evaluation result
    to unpack. *)
Theorem runOptimization_no_initial_population
    (CGRA : PEArrayModel) (app : Application) (sim_params : SimParameters)
    (tb : Toolbox) (pygmo : Pygmo) (self : t) (r : Rng) :
  Initial_population_size (params self) ≤ 0 →
  runOptimization CGRA app sim_params tb pygmo self r =
  Some (Raise (ValueError "not enough values to unpack (expected 2, got 0)")).
Proof.
  intros Hn. unfold runOptimization, initial_state, population.
  replace (Z.to_nat (Initial_population_size (params self))) with 0%nat by lia.
  reflexivity.
Qed.

(** X15. With a random population size of zero or less no generation can
    be completed: every iteration of the loop raises. A run that enters the
    loop therefore raises. *)
Theorem runOptimization_no_random_population
    (CGRA : PEArrayModel) (app : Application) (sim_params : SimParameters)
    (tb : Toolbox) (pygmo : Pygmo) (self : t) (r : Rng) :
  Random_population_size (params self) ≤ 0 →
  0 < Maximum_generation (params self) →
  0 < Maximum_stall (params self) →
  (∀ st, params (obj st) = params self →
         ∃ e, generation CGRA app sim_params tb st = Raise e) ∧
  ∃ e, runOptimization CGRA app sim_params tb pygmo self r = Some (Raise e).
Proof.
  intros HR HG HS.
  assert (∀ st, params (obj st) = params self →
                ∃ e, generation CGRA app sim_params tb st = Raise e) as Hgen.
  { intros st Hp.
    destruct (generation CGRA app sim_params tb st) as [st'|e] eqn:E;
      [|by exists e].
    apply generation_inv in E as (o & rnd & _ & Hrnd & _).
    apply evaluate_all_length in Hrnd as [_ Hpos].
    rewrite random_population_length, Hp in Hpos. lia. }
  split; [exact Hgen|]. unfold runOptimization.
  destruct (initial_state CGRA app sim_params tb self r) as [st0|e] eqn:H0;
    [|by exists e].
  apply initial_state_inv in H0 as (pop0 & _ & Hobj & _ & _ & _ & Hg & Hs).
  assert (params (obj st0) = params self) as Hp by (by rewrite Hobj).
  destruct (Z.to_nat (Maximum_generation (params self))) as [|fuel] eqn:Hf;
    [lia|].
  simpl. unfold loop_cond. rewrite Hp, Hg, Hs.
  rewrite !bool_decide_eq_true_2 by lia. simpl.
  destruct (Hgen st0 Hp) as [e ->]. by exists e.
Qed.

(** X16. With a maximum generation or a maximum stall of zero or less the
    loop body never runs: the run returns an empty archive and no quality
    series, even when quality tracking is enabled, and the population is the
    evaluated initial population. *)
Theorem runOptimization_no_generation
    (CGRA : PEArrayModel) (app : Application) (sim_params : SimParameters)
    (tb : Toolbox) (pygmo : Pygmo) (self : t) (r : Rng) (st0 : LoopState) :
  Maximum_generation (params self) ≤ 0 ∨ Maximum_stall (params self) ≤ 0 →
  initial_state CGRA app sim_params tb self r = Ok st0 →
  runOptimization CGRA app sim_params tb pygmo self r =
    Some (Ok ([], None, obj st0)) ∧
  length (pop (obj st0)) =
    Z.to_nat (Initial_population_size (params self)).
Proof.
  intros Hlim H0. unfold runOptimization. rewrite H0.
  apply initial_state_inv in H0
    as (pop0 & Hpop & Hobj & Hhof & _ & _ & Hg & Hs).
  assert (loop_cond st0 = false) as Hc.
  { unfold loop_cond. rewrite Hobj, Hg, Hs. simpl. apply andb_false_iff.
    destruct Hlim; [left|right]; apply bool_decide_eq_false_2; lia. }
  assert (∀ fuel, while_loop CGRA app sim_params tb fuel st0 = Some (Ok st0))
    as ->.
  { intros [|fuel]; simpl; by rewrite Hc. }
  split.
  - unfold finish. rewrite Hhof. simpl. by rewrite andb_false_r.
  - rewrite Hobj. simpl. apply evaluate_all_length in Hpop as [-> _].
    apply init_repeat_length.
Qed.

(** X17. The stall counter is zero after the first generation and grows by
    at most one in each later generation. So a run that ends normally has
    performed at least [Maximum stall + 1] generations, unless it stopped
    at [Maximum generation]. *)
Theorem runOptimization_minimum_generations
    (CGRA : PEArrayModel) (app : Application) (sim_params : SimParameters)
    (tb : Toolbox) (self : t) (r : Rng) (fuel : nat) (st0 st : LoopState) :
  0 < Maximum_stall (params self) →
  0 ≤ Maximum_generation (params self) →
  initial_state CGRA app sim_params tb self r = Ok st0 →
  while_loop CGRA app sim_params tb fuel st0 = Some (Ok st) →
  stall_count st ≤ Z.max 0 (gen_count st - 1) ∧
  (Maximum_generation (params self) ≤ gen_count st ∨
   Maximum_stall (params self) + 1 ≤ gen_count st).
Proof.
  intros HS HG H0 Hloop.
  apply initial_state_inv in H0
    as (pop0 & _ & Hobj & _ & Hprev & Hlog & Hg & Hs).
  apply while_loop_reaches in Hloop as [Hr Hc].
  pose proof (reaches_keeps_config _ _ _ _ _ _ Hr) as (Hp & _).
  assert (params (obj st) = params self) as Hp' by (by rewrite Hp, Hobj).
  unfold loop_cond in Hc. rewrite Hp' in Hc.
  apply andb_false_iff in Hc.
  destruct (reaches_after _ _ _ _ _ _ Hr) as [->|(H1 & _ & _ & Hb & _)].
  - left. done.
  - rewrite Hg, Hs. split; [lia|].
    destruct Hc as [Hc|Hc]; apply bool_decide_eq_false_1 in Hc; lia.
  - split; [lia|].
    destruct Hc as [Hc|Hc]; apply bool_decide_eq_false_1 in Hc; lia.
Qed.

(** What the end of the run returns, case by case. *)
Lemma finish_inv (pygmo : Pygmo) (st : LoopState)
    (archive : list Individual) (quality : option (list Q)) (self' : t) :
  finish pygmo st = Ok (archive, quality, self') →
  archive = filter (fun ind => isValid ind = true) (hof st) ∧
  ((quality = None ∧ self' = obj st ∧
    (hv_logging (obj st) = false ∨ archive = [])) ∨
   (∃ ref series,
      quality = Some series ∧
      hv_logging (obj st) = true ∧ archive ≠ [] ∧
      self' = set_hv_refpoint (Some ref) (obj st) ∧
      match hv_refpoint (obj st) with
      | Some r0 => ref = r0
      | None =>
          refpoint pygmo (mjoin (fitness_hof_log st)) (1 # 10)%Q = Ok ref
      end ∧
      toolbox_map
        (fun fit => if bool_decide (0 < length fit)%nat
                    then hypervolume pygmo fit;; compute pygmo fit ref
                    else mret 0%Q)
        (fitness_hof_log st) = Ok series)).
Proof.
  unfold finish.
  destruct (hv_logging (obj st)) eqn:Hhv; simpl.
  - case_bool_decide as Hlen; simpl.
    + unfold mbind, result_bind.
      destruct (hypervolume pygmo _) as [[]|e]; [|discriminate].
      destruct (match hv_refpoint (obj st) with
                | Some r => mret r
                | None => refpoint pygmo _ _
                end) as [ref|e] eqn:Href; [|discriminate].
      destruct (toolbox_map _ (fitness_hof_log st)) as [series|e] eqn:Hs;
        [|discriminate].
      intros [= <- <- <-]. split; [done|]. right.
      exists ref, series. repeat split; try done.
      * intros Hnil. rewrite Hnil in Hlen. simpl in Hlen. lia.
      * destruct (hv_refpoint (obj st)); [by injection Href|done].
    + intros [= <- <- <-]. split; [done|]. left. repeat split. right.
      destruct (filter _ (hof st)); [done|]. simpl in Hlen. lia.
  - intros [= <- <- <-]. split; [done|]. left. repeat split. by left.
Qed.

(** X18. The archive that the run returns consists of the valid members of
    the loop's archive, in their order. A quality series comes with it
    exactly when quality tracking is enabled and this archive is not empty:
    with quality tracking enabled and no valid candidate in the archive the
    run returns no series. *)
Theorem finish_returns_valid_archive
    (pygmo : Pygmo) (st : LoopState)
    (archive : list Individual) (quality : option (list Q)) (self' : t) :
  finish pygmo st = Ok (archive, quality, self') →
  (∀ ind, ind ∈ archive ↔ ind ∈ hof st ∧ isValid ind = true) ∧
  archive `sublist_of` hof st ∧
  (is_Some quality ↔ hv_logging (obj st) = true ∧ archive ≠ []).
Proof.
  intros H. apply finish_inv in H as [-> Hq].
  split; [intros ind; rewrite list_elem_of_filter; tauto|].
  split; [apply sublist_filter|].
  destruct Hq as [(-> & _ & Hoff)|(ref & series & -> & Hon & Hne & _)].
  - split; [by intros [? ?]|]. intros [Hon Hne].
    destruct Hoff; congruence.
  - split; [done|]. by intros _.
Qed.

(** X19. The quality series has one value for each entry of the fitness
    history, computed against one reference point: the one set by
    [set_ref_point] if there is one, otherwise the one that pygmo derives
    from the whole history with the offset 0.1, which is then stored. An
    entry without any fitness vector gets the value 0 and the others the
    hypervolume that pygmo computes. *)
Theorem finish_quality_series
    (pygmo : Pygmo) (st : LoopState)
    (archive : list Individual) (series : list Q) (self' : t) :
  finish pygmo st = Ok (archive, Some series, self') →
  ∃ ref,
    hv_refpoint self' = Some ref ∧
    (∀ r0, hv_refpoint (obj st) = Some r0 → ref = r0) ∧
    (hv_refpoint (obj st) = None →
     refpoint pygmo (mjoin (fitness_hof_log st)) (1 # 10)%Q = Ok ref) ∧
    Forall2
      (fun fit v => (fit = [] → v = 0%Q) ∧
                    (fit ≠ [] → compute pygmo fit ref = Ok v))
      (fitness_hof_log st) series.
Proof.
  intros H. apply finish_inv in H
    as [_ [(Hq & _)|(ref & series' & Hq & _ & _ & -> & Href & Hs)]];
    [discriminate|].
  injection Hq as <-. exists ref. split; [done|]. split; [|split].
  - intros r0 Hr0. rewrite Hr0 in Href. done.
  - intros Hnone. by rewrite Hnone in Href.
  - apply toolbox_map_Forall2 in Hs. eapply Forall2_impl; [exact Hs|].
    intros fit v Hv. simpl in Hv. case_bool_decide as Hlen.
    + split; [intros ->; simpl in Hlen; lia|]. intros _.
      unfold mbind, result_bind in Hv.
      by destruct (hypervolume pygmo fit) as [[]|e].
    + split; [intros _; by injection Hv|].
      intros Hne. destruct fit; [done|]. simpl in Hlen. lia.
Qed.

(** X20. When the run returns a quality series, the series has exactly one
    value for each generation that the loop performed. *)
Theorem runOptimization_series_per_generation
    (CGRA : PEArrayModel) (app : Application) (sim_params : SimParameters)
    (tb : Toolbox) (pygmo : Pygmo) (self : t) (r : Rng) (fuel : nat)
    (st0 st : LoopState)
    (archive : list Individual) (series : list Q) (self' : t) :
  initial_state CGRA app sim_params tb self r = Ok st0 →
  while_loop CGRA app sim_params tb fuel st0 = Some (Ok st) →
  finish pygmo st = Ok (archive, Some series, self') →
  length series = Z.to_nat (gen_count st) ∧ 1 ≤ gen_count st.
Proof.
  intros H0 Hloop Hfin.
  apply initial_state_inv in H0
    as (pop0 & _ & _ & Hhof & Hprev & Hlog & Hg & _).
  apply while_loop_reaches in Hloop as [Hr _].
  apply finish_inv in Hfin
    as [Harch [(Hq & _)|(ref & series' & Hq & _ & Hne & _ & _ & Hs)]];
    [discriminate|].
  injection Hq as <-. apply toolbox_map_length in Hs.
  destruct (reaches_after _ _ _ _ _ _ Hr) as [->|(H1 & _ & _ & _ & Hl)].
  - by left.
  - exfalso. apply Hne. by rewrite Harch, Hhof.
  - split; [by rewrite Hs|done].
Qed.

(** X21. A run that returns leaves the configuration of the optimizer as
    it was: the parameters, the router, the objectives with their arguments
    and the flag of quality tracking. A reference point that was set is
    still the reference point afterwards. Every member of the archive
    returned is valid. *)
Theorem runOptimization_keeps_configuration
    (CGRA : PEArrayModel) (app : Application) (sim_params : SimParameters)
    (tb : Toolbox) (pygmo : Pygmo) (self : t) (r : Rng)
    (archive : list Individual) (quality : option (list Q)) (self' : t) :
  runOptimization CGRA app sim_params tb pygmo self r =
    Some (Ok (archive, quality, self')) →
  params self' = params self ∧
  router self' = router self ∧
  eval_list self' = eval_list self ∧
  eval_args self' = eval_args self ∧
  hv_logging self' = hv_logging self ∧
  (∀ ref, hv_refpoint self = Some ref → hv_refpoint self' = Some ref) ∧
  Forall (fun ind => isValid ind = true) archive.
Proof.
  unfold runOptimization.
  destruct (initial_state CGRA app sim_params tb self r) as [st0|e] eqn:H0;
    [|discriminate].
  destruct (while_loop _ _ _ _ _ st0) as [[st|e]|] eqn:Hloop;
    [|discriminate|discriminate].
  intros [= Hfin].
  apply initial_state_inv in H0 as (pop0 & _ & Hobj & _).
  apply while_loop_reaches in Hloop as [Hr _].
  pose proof (reaches_keeps_config _ _ _ _ _ _ Hr)
    as (Hp & Hro & Hel & Hea & Hhv & Hrp).
  rewrite Hobj in Hp, Hro, Hel, Hea, Hhv, Hrp. simpl in *.
  apply finish_inv in Hfin as [-> Hq].
  assert (Forall (fun ind => isValid ind = true)
            (filter (fun ind => isValid ind = true) (hof st))) as Hvalid.
  { apply Forall_forall. intros ind Hin.
    by apply list_elem_of_filter in Hin as [? _]. }
  destruct Hq as [(_ & -> & _)|(ref & series & _ & _ & _ & -> & Href & _)].
  - repeat split; try done. intros ref Href. by rewrite Hrp.
  - simpl. repeat split; try done. intros r0 Hr0.
    rewrite Hrp, Hr0 in Href. by rewrite Href.
Qed.

(** The runs of the 2 x 2 array used below. *)
Lemma demo_final :
  while_loop Demo.CGRA Demo.app ∅ Demo.toolbox 100 Demo.state0
  = Some (Ok Demo.final).
Proof. apply loop_end_spec. vm_compute. reflexivity. Qed.

Lemma demo_finish_series :
  ∃ archive series self',
    finish Demo.pygmo Demo.final = Ok (archive, Some series, self').
Proof.
  assert (match finish Demo.pygmo Demo.final with
          | Ok (_, Some _, _) => true
          | _ => false
          end = true) as H by (vm_compute; reflexivity).
  destruct (finish Demo.pygmo Demo.final) as [[[archive [series|]] self']|e];
    [|discriminate H|discriminate H].
  exists archive, series, self'. reflexivity.
Qed.

Lemma runOptimization_no_initial_population_witness :
  runOptimization Demo.CGRA Demo.app ∅ Demo.toolbox Demo.pygmo
    (Demo.engine_of (Demo.params_of 0 2 100)) 0%nat =
  Some (Raise (ValueError "not enough values to unpack (expected 2, got 0)")).
Proof.
  apply (runOptimization_no_initial_population Demo.CGRA Demo.app ∅
           Demo.toolbox Demo.pygmo (Demo.engine_of (Demo.params_of 0 2 100))).
  simpl. lia.
Defined.

Lemma runOptimization_no_random_population_witness :
  ∃ e, runOptimization Demo.CGRA Demo.app ∅ Demo.toolbox Demo.pygmo
         (Demo.engine_of (Demo.params_of 4 0 100)) 0%nat = Some (Raise e).
Proof.
  apply (runOptimization_no_random_population Demo.CGRA Demo.app ∅
           Demo.toolbox Demo.pygmo (Demo.engine_of (Demo.params_of 4 0 100)));
    simpl; lia.
Defined.

Lemma runOptimization_no_generation_witness :
  runOptimization Demo.CGRA Demo.app ∅ Demo.toolbox Demo.pygmo
    (Demo.engine_of (Demo.params_of 4 2 0)) 0%nat =
  Some (Ok ([], None, obj Demo.state0_idle)).
Proof.
  apply (runOptimization_no_generation Demo.CGRA Demo.app ∅ Demo.toolbox
           Demo.pygmo (Demo.engine_of (Demo.params_of 4 2 0)) 0%nat
           Demo.state0_idle).
  - left. simpl. lia.
  - apply from_Ok_spec. vm_compute. reflexivity.
Defined.

Lemma runOptimization_minimum_generations_witness :
  stall_count Demo.final ≤ Z.max 0 (gen_count Demo.final - 1) ∧
  (Maximum_generation (params Demo.engine) ≤ gen_count Demo.final ∨
   Maximum_stall (params Demo.engine) + 1 ≤ gen_count Demo.final).
Proof.
  apply (runOptimization_minimum_generations Demo.CGRA Demo.app ∅
           Demo.toolbox Demo.engine 0%nat 100 Demo.state0 Demo.final).
  - simpl. lia.
  - simpl. lia.
  - exact demo_initial_state.
  - exact demo_final.
Defined.

Lemma finish_returns_valid_archive_witness :
  ∃ archive quality self',
    finish Demo.pygmo Demo.final = Ok (archive, quality, self') ∧
    archive `sublist_of` hof Demo.final.
Proof.
  destruct demo_finish_series as (archive & series & self' & H).
  exists archive, (Some series), self'. split; [exact H|].
  destruct (finish_returns_valid_archive Demo.pygmo Demo.final archive
              (Some series) self' H) as (_ & Hsub & _).
  exact Hsub.
Defined.

Lemma finish_quality_series_witness :
  ∃ archive series self' ref,
    finish Demo.pygmo Demo.final = Ok (archive, Some series, self') ∧
    hv_refpoint self' = Some ref.
Proof.
  destruct demo_finish_series as (archive & series & self' & H).
  destruct (finish_quality_series Demo.pygmo Demo.final archive series self'
              H) as (ref & Href & _).
  exists archive, series, self', ref. split; [exact H|exact Href].
Defined.

Lemma runOptimization_series_per_generation_witness :
  ∃ archive series self',
    finish Demo.pygmo Demo.final = Ok (archive, Some series, self') ∧
    length series = Z.to_nat (gen_count Demo.final).
Proof.
  destruct demo_finish_series as (archive & series & self' & H).
  exists archive, series, self'. split; [exact H|].
  destruct (runOptimization_series_per_generation Demo.CGRA Demo.app ∅
              Demo.toolbox Demo.pygmo Demo.engine 0%nat 100 Demo.state0
              Demo.final archive series self' demo_initial_state
              demo_final H) as [Hlen _].
  exact Hlen.
Defined.

Lemma runOptimization_keeps_configuration_witness :
  ∃ archive quality self',
    runOptimization Demo.CGRA Demo.app ∅ Demo.toolbox Demo.pygmo
      Demo.engine 0%nat = Some (Ok (archive, quality, self')) ∧
    params self' = params Demo.engine.
Proof.
  assert (ended (runOptimization Demo.CGRA Demo.app ∅ Demo.toolbox Demo.pygmo
                   Demo.engine 0%nat) = true) as H
    by (vm_compute; reflexivity).
  destruct (runOptimization Demo.CGRA Demo.app ∅ Demo.toolbox Demo.pygmo
              Demo.engine 0%nat) as [[[[archive quality] self']|e]|] eqn:E;
    [|discriminate H|discriminate H].
  exists archive, quality, self'. split; [reflexivity|].
  destruct (runOptimization_keeps_configuration Demo.CGRA Demo.app ∅
              Demo.toolbox Demo.pygmo Demo.engine 0%nat archive quality
              self' E) as [Hp _].
  exact Hp.
Defined.

End RunTheorems.

(** ** Further properties of the reference point *)

(** The reference point after one call of [set_ref_point]. *)
Lemma set_ref_point_stored (self : NSGA2.t) (ref_point : list Q) :
  NSGA2.hv_refpoint (NSGA2.self_after (NSGA2.set_ref_point self ref_point)) =
    (if NSGA2.hv_logging self &&
        bool_decide (length ref_point = length (NSGA2.eval_list self))
     then Some ref_point
     else NSGA2.hv_refpoint self).
Proof.
  unfold NSGA2.set_ref_point.
  destruct (NSGA2.hv_logging self); simpl; [|done].
  repeat case_bool_decide; simpl; try done; lia.
Qed.

(** X22. [set_ref_point] returns [False] exactly when quality tracking is
    enabled and the vector has not one value for each objective. It stores
    the vector exactly when quality tracking is enabled and the vector has
    one value for each objective, and leaves the reference point as it was
    otherwise; with quality tracking disabled it returns [True] for every
    vector and stores none. It changes nothing else in the optimizer. *)
Theorem set_ref_point_outcome (self : NSGA2.t) (ref_point : list Q) :
  let out := NSGA2.set_ref_point self ref_point in
  (NSGA2.returned out = false ↔
     NSGA2.hv_logging self = true ∧
     length ref_point ≠ length (NSGA2.eval_list self)) ∧
  NSGA2.hv_refpoint (NSGA2.self_after out) =
    (if NSGA2.hv_logging self &&
        bool_decide (length ref_point = length (NSGA2.eval_list self))
     then Some ref_point
     else NSGA2.hv_refpoint self) ∧
  NSGA2.self_after out =
    NSGA2.set_hv_refpoint (NSGA2.hv_refpoint (NSGA2.self_after out)) self.
Proof.
  cbv zeta. split; [|split; [apply set_ref_point_stored|]].
  - unfold NSGA2.set_ref_point.
    destruct (NSGA2.hv_logging self); simpl.
    + repeat case_bool_decide; simpl;
        (split;
         [ intros Hret; try done; try (split; [done|lia])
         | intros [_ Hlen]; try done; lia ]).
    + split; [done|]. by intros [? _].
  - unfold NSGA2.set_ref_point.
    destruct self as [prm rtr evals args pop hv rp]. simpl.
    destruct hv; simpl; [|done].
    repeat case_bool_decide; done.
Qed.

(** X23. After any series of calls of [set_ref_point] the reference
    point is the last vector of the series that has one value for each
    objective, or the earlier reference point when there is none; with
    quality tracking disabled it is the earlier reference point. *)
Theorem set_ref_points_last_accepted
    (self : NSGA2.t) (ref_points : list (list Q)) :
  NSGA2.hv_refpoint (set_ref_points self ref_points) =
    if NSGA2.hv_logging self then
      match last (filter (fun rp => length rp = length (NSGA2.eval_list self))
                    ref_points) with
      | Some rp => Some rp
      | None => NSGA2.hv_refpoint self
      end
    else NSGA2.hv_refpoint self.
Proof.
  induction ref_points as [|rp l IH] using rev_ind; simpl.
  - by destruct (NSGA2.hv_logging self).
  - unfold set_ref_points in *. rewrite foldl_app. simpl.
    destruct (set_ref_points_keeps_flag l self) as [Hhv Hev].
    unfold set_ref_points in Hhv, Hev.
    rewrite set_ref_point_stored, Hhv, Hev, IH, filter_app.
    destruct (NSGA2.hv_logging self); simpl; [|done].
    rewrite filter_cons, filter_nil. case_bool_decide as Hlen.
    + rewrite decide_True by done. by rewrite last_snoc.
    + rewrite decide_False by done. by rewrite app_nil_r.
Qed.

(** ** Properties of the constructor *)

Section ConstructorFacts.

Import Constructor.

Variable Float : Type.
Variable py_int : string → option Z.
Variable py_float : string → option Float.
Variable import_class : string → attempt PyObject.
Variable py_eval : string → Evaluated.

Local Abbreviation get_params := (get_parameters Float py_int py_float).
Local Abbreviation value_of := (parameter_value Float py_int py_float).
Local Abbreviation param_ok := (parameter_ok Float py_int py_float).
Local Abbreviation construct :=
  (__init__ Float py_int py_float import_class py_eval).

Lemma is_done_Done {A : Type} (a : attempt A) :
  is_done a = true → ∃ x, a = Done x.
Proof. destruct a; [by eexists|discriminate]. Qed.

Lemma parse_value_ok (text : string) :
  is_Some (py_int text) ∨ is_Some (py_float text) →
  ∃ v, parse_value Float py_int py_float text = Done v.
Proof.
  unfold parse_value. intros [[z ->]|[f Hf]]; [by eexists|].
  destruct (py_int text); [by eexists|]. rewrite Hf. by eexists.
Qed.

(** What the loop over the parameters returns. *)
Lemma get_parameters_lookup (ps : list Element) (acc m : gmap string (Number Float)) :
  get_params ps acc = Done m →
  Forall param_ok ps ∧
  ∀ name, m !! name =
          match last_parameter name ps with
          | Some param => value_of param
          | None => acc !! name
          end.
Proof.
  revert acc. induction ps as [|param ps IH]; intros acc; simpl.
  - intros [= <-]. split; [constructor|done].
  - destruct (attrib_of param !! "name") as [nm|] eqn:Hnm; [|discriminate].
    destruct (text_of param) as [text|] eqn:Htext; [|discriminate].
    unfold mbind, attempt_bind.
    destruct (parse_value Float py_int py_float text) as [v|f] eqn:Hv;
      [|discriminate].
    intros H. apply IH in H as [Hok Hlook]. split.
    + constructor; [|done]. exists nm, text. repeat split; try done.
      unfold parse_value in Hv.
      destruct (py_int text); [left; by eexists|].
      destruct (py_float text); [right; by eexists|discriminate].
    + intros name. rewrite Hlook. unfold last_parameter.
      rewrite filter_cons. destruct (decide (nm = name)) as [->|Hne].
      * rewrite decide_True by done. rewrite last_cons.
        destruct (last (filter _ ps)); [done|].
        rewrite lookup_insert_eq. unfold parameter_value.
        by rewrite Htext, Hv.
      * rewrite decide_False by congruence.
        destruct (last (filter _ ps)); [done|].
        by rewrite lookup_insert_ne.
Qed.

(** The loop goes through the parameter elements that it accepts. *)
Lemma get_parameters_app (good rest : list Element)
    (acc : gmap string (Number Float)) :
  Forall param_ok good →
  ∃ acc', get_params (good ++ rest) acc = get_params rest acc'.
Proof.
  intros Hgood. revert acc.
  induction Hgood as [|param good (nm & text & Hnm & Htext & Hparse) _ IH];
    intros acc; simpl; [by eexists|].
  rewrite Hnm, Htext. destruct (parse_value_ok text Hparse) as [v ->].
  simpl. apply IH.
Qed.

Lemma index_app_first {A : Type} `{EqDecision A} (x : A) (l1 l2 : list A) :
  x ∉ l1 → index x (l1 ++ x :: l2) = length l1.
Proof.
  induction l1 as [|y l1 IH]; simpl; intros Hnot.
  - by rewrite decide_True.
  - rewrite decide_False; [|intros ->; apply Hnot; apply elem_of_cons; by left].
    rewrite IH; [done|]. intros Hin. apply Hnot. apply elem_of_cons. by right.
Qed.


Lemma load_evals_Forall2 (names : list string) (evals : list EvalBase) :
  load_evals import_class names = Done evals →
  Forall2 (fun nm evl =>
             ∃ cls_name, import_class nm = Done (Class cls_name (IsEval evl)))
    names evals.
Proof.
  revert evals. induction names as [|nm names IH]; intros evals; simpl.
  - intros [= <-]. constructor.
  - unfold mbind, attempt_bind.
    destruct (import_class nm) as [[cname [r|evl|]|]|f] eqn:E; try discriminate.
    destruct (load_evals import_class names) as [evls|f]; [|discriminate].
    intros [= <-]. constructor; [by exists cname|by apply IH].
Qed.

Lemma named_Forall2 (elements : list Element) :
  None ∉ (text_of <$> elements) →
  Forall2 (fun ele nm => text_of ele = Some nm)
    elements (omap id (text_of <$> elements)).
Proof.
  induction elements as [|ele elements IH]; simpl; intros Hnone;
    [constructor|].
  destruct (text_of ele) as [nm|] eqn:E; simpl.
  - constructor; [done|]. apply IH. intros Hin. apply Hnone.
    apply elem_of_cons. by right.
  - exfalso. apply Hnone. apply elem_of_cons. by left.
Qed.

Lemma get_eval_args_Forall2 (all rest : list (option string))
    (ds : list EvalArgs) :
  get_eval_args py_eval all rest = Done ds →
  Forall2 (fun args d =>
             match args with
             | Some s => py_eval s = Dict d
             | None => d = ∅
             end) rest ds.
Proof.
  revert ds. induction rest as [|[s|] rest IH]; intros ds; simpl.
  - intros [= <-]. constructor.
  - destruct (py_eval s) as [| |d|str] eqn:E; try discriminate.
    unfold mbind, attempt_bind.
    destruct (get_eval_args py_eval all rest) as [ds'|f]; [|discriminate].
    intros [= <-]. constructor; [done|by apply IH].
  - unfold mbind, attempt_bind.
    destruct (get_eval_args py_eval all rest) as [ds'|f]; [|discriminate].
    intros [= <-]. constructor; [done|by apply IH].
Qed.


End ConstructorFacts.

Section ConstructorTheorems.

Import Constructor.

(** X24. In the object that the constructor returns, the parameter table
    maps each name to the value of the last parameter element with this
    name, and it has no other entry; every parameter element of the
    configuration has a name and a text that [int] or [float] accepts. *)
Theorem constructor_parameter_table
    (Float : Type) (py_int : string → option Z)
    (py_float : string → option Float)
    (import_class : string → attempt PyObject) (py_eval : string → Evaluated)
    (config : Element) (pygmo_available : bool) (self : Object Float) :
  __init__ Float py_int py_float import_class py_eval config pygmo_available
    = Done self →
  Forall (parameter_ok Float py_int py_float) (iter "parameter" config) ∧
  ∀ name,
    params self !! name =
    match last_parameter name (iter "parameter" config) with
    | Some param => parameter_value Float py_int py_float param
    | None => None
    end.
Proof.
  unfold __init__, mbind, attempt_bind.
  destruct (get_parameters Float py_int py_float _ ∅) as [prm|f] eqn:Hp;
    [|discriminate].
  destruct (get_router import_class config) as [rtr|f]; [|discriminate].
  destruct (get_objectives import_class config) as [evals|f]; [|discriminate].
  destruct (get_eval_args py_eval _ _) as [args|f]; [|discriminate].
  intros [= <-]. simpl.
  apply get_parameters_lookup in Hp as [Hok Hlook]. split; [done|].
  intros name. rewrite Hlook.
  by destruct (last_parameter name (iter "parameter" config)).
Qed.

Lemma constructor_parameter_table_witness :
  ∃ self, Demo.construct Demo.config_ok true = Done self ∧
          params self !! "Select size" = Some (PyInt 2) ∧
          params self !! "Offspring size" = None.
Proof.
  destruct (is_done_Done (Demo.construct Demo.config_ok true)) as [self E];
    [vm_compute; reflexivity|].
  exists self. split; [exact E|].
  destruct (constructor_parameter_table Q Demo.py_int Demo.py_float
              Demo.import_class Demo.py_eval Demo.config_ok true self E)
    as [_ Hlook].
  split; rewrite Hlook; vm_compute; reflexivity.
Defined.

(** X25. The first parameter element that the loop does not accept decides
    the error, whatever the rest of the configuration is: without a name the
    constructor raises "missing parameter name"; with a name and without
    text, "missing parameter value for" that name; with a text that neither
    [int] nor [float] accepts, "Invalid parameter:" and the text. *)
Theorem constructor_first_bad_parameter
    (Float : Type) (py_int : string → option Z)
    (py_float : string → option Float)
    (import_class : string → attempt PyObject) (py_eval : string → Evaluated)
    (config : Element) (pygmo_available : bool)
    (good rest : list Element) (bad : Element) :
  iter "parameter" config = good ++ bad :: rest →
  Forall (parameter_ok Float py_int py_float) good →
  ¬ parameter_ok Float py_int py_float bad →
  __init__ Float py_int py_float import_class py_eval config pygmo_available
  = Failed (Raised (ValueError
      match attrib_of bad !! "name" with
      | None => "missing parameter name"
      | Some name =>
          match text_of bad with
          | None => "missing parameter value for " +:+ name
          | Some text => "Invalid parameter: " +:+ text
          end
      end)).
Proof.
  intros Hiter Hgood Hbad. unfold __init__. rewrite Hiter.
  destruct (get_parameters_app Float py_int py_float good (bad :: rest) ∅ Hgood)
    as [acc ->].
  simpl. destruct (attrib_of bad !! "name") as [nm|] eqn:Hnm; [|done].
  destruct (text_of bad) as [text|] eqn:Htext; [|done].
  unfold parse_value.
  destruct (py_int text) as [z|] eqn:Hz.
  { exfalso. apply Hbad. exists nm, text. repeat split; try done.
    left. by eexists. }
  destruct (py_float text) as [f|] eqn:Hf; [|done].
  exfalso. apply Hbad. exists nm, text. repeat split; try done.
  right. by eexists.
Qed.

Lemma constructor_first_bad_parameter_witness :
  Demo.construct Demo.config_bad_parameter true =
  Failed (Raised (ValueError "Invalid parameter: many")).
Proof.
  apply (constructor_first_bad_parameter Q Demo.py_int Demo.py_float
           Demo.import_class Demo.py_eval Demo.config_bad_parameter true
           [Demo.parameter "Select size" "4"]
           [Demo.parameter "Maximum stall" "3"]
           (Demo.parameter "Offspring size" "many")).
  - vm_compute. reflexivity.
  - constructor; [|constructor].
    exists "Select size", "4". split; [vm_compute; reflexivity|].
    split; [reflexivity|]. left. exists 4. vm_compute. reflexivity.
  - intros (nm & text & _ & Htext & Hparse).
    injection Htext as <-.
    destruct Hparse as [[z Hz]|[f Hf]];
      [vm_compute in Hz; discriminate Hz|vm_compute in Hf; discriminate Hf].
Defined.

(** X26. When the parameters and the router are accepted, a configuration
    without objective is refused with "At least, one objective is needed",
    and a configuration with an objective without name is refused with
    "missing No.k objective name", where k is the position of the first
    such objective; the classes of the objectives are not looked at. *)
Theorem constructor_objective_names
    (Float : Type) (py_int : string → option Z)
    (py_float : string → option Float)
    (import_class : string → attempt PyObject) (py_eval : string → Evaluated)
    (config : Element) (pygmo_available : bool)
    (prm : gmap string (Number Float)) (rtr : RouterBase) :
  get_parameters Float py_int py_float (iter "parameter" config) ∅
    = Done prm →
  get_router import_class config = Done rtr →
  (iter "eval" config = [] →
   __init__ Float py_int py_float import_class py_eval config pygmo_available
   = Failed (Raised (ValueError "At least, one objective is needed"))) ∧
  (∀ named unnamed rest,
     iter "eval" config = named ++ unnamed :: rest →
     Forall (fun ele => text_of ele ≠ None) named →
     text_of unnamed = None →
     __init__ Float py_int py_float import_class py_eval config pygmo_available
     = Failed (Raised (ValueError
                         ("missing No." +:+ pretty (length named + 1)%nat +:+
                          " objective name")))).
Proof.
  intros Hp Hr. unfold __init__. rewrite Hp, Hr. simpl.
  unfold get_objectives. split.
  - intros ->. reflexivity.
  - intros named unnamed rest -> Hnamed Hun.
    rewrite bool_decide_eq_false_2
      by (rewrite length_fmap, length_app; simpl; lia).
    rewrite (fmap_app text_of), (fmap_cons text_of), Hun.
    rewrite bool_decide_eq_true_2
      by (apply elem_of_app; right; apply elem_of_cons; by left).
    rewrite index_app_first, length_fmap; [done|].
    intros Hin. apply list_elem_of_fmap in Hin as (ele & Hnone & Hin).
    rewrite Forall_forall in Hnamed. by apply (Hnamed ele Hin).
Qed.

Lemma constructor_objective_names_witness :
  Demo.construct Demo.config_unnamed_objective true =
  Failed (Raised (ValueError
                    ("missing No." +:+ pretty (1 + 1)%nat +:+
                     " objective name"))).
Proof.
  destruct (is_done_Done
              (get_parameters Q Demo.py_int Demo.py_float
                 (iter "parameter" Demo.config_unnamed_objective) ∅))
    as [prm Hp]; [vm_compute; reflexivity|].
  destruct (is_done_Done (get_router Demo.import_class
                            Demo.config_unnamed_objective))
    as [rtr Hr]; [vm_compute; reflexivity|].
  destruct (constructor_objective_names Q Demo.py_int Demo.py_float
              Demo.import_class Demo.py_eval Demo.config_unnamed_objective
              true prm rtr Hp Hr) as [_ H].
  apply (H [Demo.eval_element (Some "MapWidthEval") None]
           (Demo.eval_element None None)
           [Demo.eval_element (Some "NoSuchEval") None]).
  - vm_compute. reflexivity.
  - constructor; [discriminate|constructor].
  - reflexivity.
Defined.

(** X27. In the object that the constructor returns there are as many
    objectives as objective elements in the configuration, at least one,
    and as many argument dicts, in document order: each objective is the
    class loaded under the name of its element, and its arguments are the
    empty dict when the element has no "args" attribute and the dict that
    the attribute evaluates to otherwise. The population is empty, no
    reference point is set, and quality tracking is enabled exactly when
    pygmo can be imported. *)
Theorem constructor_success_shape
    (Float : Type) (py_int : string → option Z)
    (py_float : string → option Float)
    (import_class : string → attempt PyObject) (py_eval : string → Evaluated)
    (config : Element) (pygmo_available : bool) (self : Object Float) :
  __init__ Float py_int py_float import_class py_eval config pygmo_available
    = Done self →
  (0 < length (eval_list self))%nat ∧
  length (eval_list self) = length (eval_args self) ∧
  Forall2
    (fun ele evl =>
       ∃ name cls_name,
         text_of ele = Some name ∧
         import_class name = Done (Class cls_name (IsEval evl)))
    (iter "eval" config) (eval_list self) ∧
  Forall2
    (fun ele d =>
       match attrib_of ele !! "args" with
       | Some s => py_eval s = Dict d
       | None => d = ∅
       end)
    (iter "eval" config) (eval_args self) ∧
  pop self = [] ∧
  hv_refpoint self = None ∧
  hv_logging self = pygmo_available.
Proof.
  unfold __init__, mbind, attempt_bind.
  destruct (get_parameters Float py_int py_float _ ∅) as [prm|f];
    [|discriminate].
  destruct (get_router import_class config) as [rtr|f]; [|discriminate].
  destruct (get_objectives import_class config) as [evals|f] eqn:Hev;
    [|discriminate].
  destruct (get_eval_args py_eval _ _) as [args|f] eqn:Hargs; [|discriminate].
  intros [= <-]. simpl.
  unfold get_objectives in Hev.
  case_bool_decide as Hlen; [discriminate|].
  case_bool_decide as Hnone; [discriminate|].
  apply load_evals_Forall2 in Hev.
  pose proof (named_Forall2 _ Hnone) as Hnamed.
  assert (Forall2
            (fun ele evl =>
               ∃ name cls_name,
                 text_of ele = Some name ∧
                 import_class name = Done (Class cls_name (IsEval evl)))
            (iter "eval" config) evals) as H1.
  { eapply Forall2_trans; [|exact Hnamed|exact Hev].
    intros ele nm evl Hnm [cname Hc]. by exists nm, cname. }
  apply get_eval_args_Forall2 in Hargs.
  apply Forall2_fmap_l in Hargs.
  pose proof (Forall2_length _ _ _ H1) as Hl1.
  pose proof (Forall2_length _ _ _ Hargs) as Hl2.
  rewrite length_fmap in Hlen.
  repeat split; try done; lia.
Qed.

Lemma constructor_success_shape_witness :
  ∃ self, Demo.construct Demo.config_ok true = Done self ∧
          length (eval_list self) = length (eval_args self).
Proof.
  destruct (is_done_Done (Demo.construct Demo.config_ok true)) as [self E];
    [vm_compute; reflexivity|].
  exists self. split; [exact E|].
  destruct (constructor_success_shape Q Demo.py_int Demo.py_float
              Demo.import_class Demo.py_eval Demo.config_ok true self E)
    as (_ & Hlen & _).
  exact Hlen.
Defined.



End ConstructorTheorems.
